(** * Shell AI Assistant: the guarded command execution engine

  A shallow embedding of [shell_ai/command_executor.py] (class
  [CommandExecutor]) and of the execution paths of
  [shell_ai/assistant.py] (class [ShellAIAssistant]), with the
  properties of the engine stated and proved over it.

  Python [str] values are modelled by [string]: sequences of code points
  below 256.  On that range [str.isspace], [str.lower] and the
  [re.IGNORECASE] comparison of the engine's patterns are given exactly
  by the tables of module [PyStr]. *)

From Stdlib Require Import Strings.String Strings.Ascii Lists.List.
From Stdlib Require Import ZArith NArith Arith Bool Lia DecimalString.
Import ListNotations.

Local Open Scope string_scope.
Local Open Scope bool_scope.

(** ** Python's string operations *)

Module PyStr.

Definition code (c : ascii) : N := N_of_ascii c.

Definition between (lo hi n : N) : bool := (N.leb lo n && N.leb n hi)%N.

(** [str.isspace] on one character: TAB..CR, FS..US, SPACE, NEL, NBSP. *)
Definition isspace (c : ascii) : bool :=
  between 9 13 (code c) || between 28 32 (code c)
  || N.eqb (code c) 133 || N.eqb (code c) 160.

(** [str.lower] on one character: A..Z and the Latin-1 capitals
    (all of 192..222 but the multiplication sign 215). *)
Definition lower_char (c : ascii) : ascii :=
  if between 65 90 (code c)
     || (between 192 222 (code c) && negb (N.eqb (code c) 215))
  then ascii_of_N (code c + 32) else c.

Fixpoint lower (s : string) : string :=
  match s with
  | EmptyString => EmptyString
  | String c s' => String (lower_char c) (lower s')
  end.

Fixpoint lstrip (s : string) : string :=
  match s with
  | EmptyString => EmptyString
  | String c s' => if isspace c then lstrip s' else s
  end.

Fixpoint rstrip (s : string) : string :=
  match s with
  | EmptyString => EmptyString
  | String c s' =>
      match rstrip s' with
      | EmptyString => if isspace c then EmptyString else String c EmptyString
      | r => String c r
      end
  end.

(** [s.strip()] *)
Definition strip (s : string) : string := rstrip (lstrip s).

Definition is_empty (s : string) : bool :=
  match s with EmptyString => true | _ => false end.

Definition push (t : string) (ts : list string) : list string :=
  if is_empty t then ts else t :: ts.

(** The word being read at the head of [s], and the words after it. *)
Fixpoint split_words (s : string) : string * list string :=
  match s with
  | EmptyString => (EmptyString, [])
  | String c s' =>
      let (t, ts) := split_words s' in
      if isspace c then (EmptyString, push t ts) else (String c t, ts)
  end.

(** [s.split()]: the maximal runs of non-whitespace characters. *)
Definition split (s : string) : list string :=
  let (t, ts) := split_words s in push t ts.

(** [sep.join(l)] *)
Fixpoint join (sep : string) (l : list string) : string :=
  match l with
  | [] => EmptyString
  | [x] => x
  | x :: l' => x ++ sep ++ join sep l'
  end.

(** [s.startswith(p)] *)
Definition startswith (p s : string) : bool := prefix p s.

(** [sub in s] *)
Fixpoint contains (sub s : string) : bool :=
  prefix sub s ||
  match s with
  | EmptyString => false
  | String _ s' => contains sub s'
  end.

Fixpoint drop (n : nat) (s : string) : string :=
  match n, s with
  | O, _ => s
  | S _, EmptyString => EmptyString
  | S k, String _ s' => drop k s'
  end.

(** [replace_from old new skip s]: the scan of [str.replace] over [s],
    the first [skip] characters of which belong to an occurrence of
    [old] already replaced. *)
Fixpoint replace_from (old new : string) (skip : nat) (s : string) : string :=
  match s with
  | EmptyString => EmptyString
  | String c s' =>
      match skip with
      | S k => replace_from old new k s'
      | O =>
          if prefix old s
          then new ++ replace_from old new (String.length old - 1) s'
          else String c (replace_from old new 0 s')
      end
  end.

Fixpoint replace_empty (new s : string) : string :=
  new ++ match s with
         | EmptyString => EmptyString
         | String c s' => String c (replace_empty new s')
         end.

(** [s.replace(old, new)]: every occurrence of [old], found from the
    left and not overlapping the one before, becomes [new]. *)
Definition replace (old new s : string) : string :=
  if is_empty old then replace_empty new s else replace_from old new 0 s.

End PyStr.

(** ** The regular expressions of [DANGEROUS_PATTERNS] *)

Module Regex.

Inductive regex : Type :=
| Void                      (* matches nothing *)
| Eps                       (* the empty word *)
| Lit (c : ascii)           (* one literal character *)
| Dot                       (* [.]: any character but the newline *)
| Space                     (* [\s] *)
| Seq (r1 r2 : regex)
| Alt (r1 r2 : regex)
| Star (r : regex).

Inductive token : Type :=
| TAtom (r : regex)
| TStar
| TPlus.

Definition is_letter (c : ascii) : bool :=
  PyStr.between 65 90 (PyStr.code c) || PyStr.between 97 122 (PyStr.code c).

Definition is_digit (c : ascii) : bool := PyStr.between 48 57 (PyStr.code c).

Definition mem (c : ascii) (s : string) : bool :=
  PyStr.contains (String c EmptyString) s.

(** The character after a backslash: [\s] is the whitespace class, an
    escaped punctuation character stands for itself; the other escapes
    of [re] are outside the fragment. *)
Definition escape (d : ascii) : option regex :=
  if Ascii.eqb d "s" then Some Space
  else if is_letter d || is_digit d then None
  else Some (Lit d).

Fixpoint lex (s : string) : option (list token) :=
  match s with
  | EmptyString => Some []
  | String c s' =>
      if Ascii.eqb c "\" then
        match s' with
        | EmptyString => None
        | String d s'' =>
            match escape d, lex s'' with
            | Some a, Some ts => Some (TAtom a :: ts)
            | _, _ => None
            end
        end
      else
        match lex s' with
        | None => None
        | Some ts =>
            if Ascii.eqb c "*" then Some (TStar :: ts)
            else if Ascii.eqb c "+" then Some (TPlus :: ts)
            else if Ascii.eqb c "." then Some (TAtom Dot :: ts)
            else if mem c "()[]{}|?^$" then None
            else Some (TAtom (Lit c) :: ts)
        end
  end.

Fixpoint build (ts : list token) : option regex :=
  match ts with
  | [] => Some Eps
  | TAtom a :: TStar :: rest =>
      option_map (Seq (Star a)) (build rest)
  | TAtom a :: TPlus :: rest =>
      option_map (Seq (Seq a (Star a))) (build rest)
  | TAtom a :: rest => option_map (Seq a) (build rest)
  | _ => None
  end.

(** [re.compile] on the fragment: literals, [.], [\s], escaped
    punctuation, and the postfix [*] and [+]. *)
Definition compile (pattern : string) : option regex :=
  match lex pattern with
  | Some ts => build ts
  | None => None
  end.

Fixpoint nullable (r : regex) : bool :=
  match r with
  | Void => false
  | Eps => true
  | Lit _ => false
  | Dot => false
  | Space => false
  | Seq r1 r2 => nullable r1 && nullable r2
  | Alt r1 r2 => nullable r1 || nullable r2
  | Star _ => true
  end.

Definition seq (r1 r2 : regex) : regex :=
  match r1, r2 with
  | Void, _ => Void
  | _, Void => Void
  | Eps, _ => r2
  | _, _ => Seq r1 r2
  end.

Definition alt (r1 r2 : regex) : regex :=
  match r1, r2 with
  | Void, _ => r2
  | _, Void => r1
  | _, _ => Alt r1 r2
  end.

(** One literal against one character; under [re.IGNORECASE] both are
    compared in lower case. *)
Definition lit_match (ignorecase : bool) (c x : ascii) : bool :=
  if ignorecase
  then Ascii.eqb (PyStr.lower_char c) (PyStr.lower_char x)
  else Ascii.eqb c x.

Definition newline : ascii := ascii_of_N 10.

(** The Brzozowski derivative of [r] by the character [x]. *)
Fixpoint deriv (ignorecase : bool) (x : ascii) (r : regex) : regex :=
  match r with
  | Void => Void
  | Eps => Void
  | Lit c => if lit_match ignorecase c x then Eps else Void
  | Dot => if Ascii.eqb x newline then Void else Eps
  | Space => if PyStr.isspace x then Eps else Void
  | Seq r1 r2 =>
      if nullable r1
      then alt (seq (deriv ignorecase x r1) r2) (deriv ignorecase x r2)
      else seq (deriv ignorecase x r1) r2
  | Alt r1 r2 => alt (deriv ignorecase x r1) (deriv ignorecase x r2)
  | Star r1 => seq (deriv ignorecase x r1) (Star r1)
  end.

(** Some prefix of [s] is a word of [r]. *)
Fixpoint match_prefix (ignorecase : bool) (r : regex) (s : string) : bool :=
  nullable r ||
  match s with
  | EmptyString => false
  | String x s' => match_prefix ignorecase (deriv ignorecase x r) s'
  end.

(** [re.search] as a truth value: some substring of [s] is a word of
    [r]. *)
Fixpoint search (ignorecase : bool) (r : regex) (s : string) : bool :=
  match_prefix ignorecase r s ||
  match s with
  | EmptyString => false
  | String _ s' => search ignorecase r s'
  end.

End Regex.

(** ** Execution outcomes *)

Module Result.

(** The dictionary [execute] returns.  The keys ['error'],
    ['is_dangerous'], ['risks'] and ['dry_run'] are present on some paths
    only. *)
Record t : Type := make {
  success : bool;
  command : string;
  error : option string;
  stdout : string;
  stderr : string;
  returncode : Z;
  is_dangerous : option bool;
  risks : option (list string);
  dry_run : option bool
}.

End Result.

(** ** The world around the engine *)

Module World.

(** What [subprocess.run] does with a command: it returns a completed
    process, or raises [TimeoutExpired], or raises another exception. *)
Inductive process : Type :=
| Completed (returncode : Z) (stdout stderr : string)
| TimeoutExpired
| Failure (message : string).

(** What the terminal gives to one call of [input]: a line, or the
    user's interrupt.  Interrupts are modelled where the engine waits for
    the user, at [input]. *)
Inductive keyboard : Type :=
| Line (text : string)
| Interrupt.

(** The dictionary the suggestion provider answers with. *)
Record suggestion : Type := {
  s_command : string;
  s_explanation : string;
  s_risks : list string;
  s_alternatives : list string;
  safe_to_auto_execute : bool
}.

Inductive prompt : Type :=
| Confirm (command : string) (risks : list string)
| HelpOffer
| Choice.

Inductive event : Type :=
| Asked (p : prompt)
| Spawned (command : string)
| Suggested (query : string).

(** The shell and the provider: the answer to the [n]-th process
    spawned, and to the [n]-th query, counted from zero. *)
Record env : Type := {
  subprocess_run : nat -> string -> process;
  provider : nat -> string -> suggestion
}.

Record state : Type := {
  history : list Result.t;      (* [CommandExecutor.history] *)
  stdin : list keyboard;        (* what the user will type *)
  trace : list event            (* what has happened, oldest first *)
}.

Inductive exn : Type :=
| KeyboardInterrupt
| EOFError
| IndexError.

Inductive res (A : Type) : Type :=
| Ok (a : A)
| Raise (e : exn)
| OutOfFuel.
Arguments Ok {A} a.
Arguments Raise {A} e.
Arguments OutOfFuel {A}.

Definition M (A : Type) : Type := state -> res A * state.

Definition ret {A} (a : A) : M A := fun st => (Ok a, st).

Definition raise {A} (e : exn) : M A := fun st => (Raise e, st).

Definition out_of_fuel {A} : M A := fun st => (OutOfFuel, st).

Definition bind {A B} (m : M A) (k : A -> M B) : M B :=
  fun st =>
    match m st with
    | (Ok a, st') => k a st'
    | (Raise e, st') => (Raise e, st')
    | (OutOfFuel, st') => (OutOfFuel, st')
    end.

(** [try: m  except KeyboardInterrupt: handler] *)
Definition except_interrupt {A} (m handler : M A) : M A :=
  fun st =>
    match m st with
    | (Raise KeyboardInterrupt, st') => handler st'
    | other => other
    end.

Definition log (ev : event) (st : state) : state :=
  {| history := history st; stdin := stdin st;
     trace := trace st ++ [ev] |}.

Definition is_spawn (ev : event) : bool :=
  match ev with Spawned _ => true | _ => false end.

Definition is_query (ev : event) : bool :=
  match ev with Suggested _ => true | _ => false end.

Definition is_confirm (ev : event) : bool :=
  match ev with Asked (Confirm _ _) => true | _ => false end.

Definition count (f : event -> bool) (evs : list event) : nat :=
  List.length (filter f evs).

(** [input(...)]: the next line of the terminal; [EOFError] at its end. *)
Definition input (p : prompt) : M string :=
  fun st =>
    let st := log (Asked p) st in
    match stdin st with
    | [] => (Raise EOFError, st)
    | Line text :: rest =>
        (Ok text, {| history := history st; stdin := rest;
                     trace := trace st |})
    | Interrupt :: rest =>
        (Raise KeyboardInterrupt,
         {| history := history st; stdin := rest; trace := trace st |})
    end.

(** [subprocess.run(command, shell=True, ..., timeout=30)] *)
Definition spawn (e : env) (command : string) : M process :=
  fun st =>
    (Ok (subprocess_run e (count is_spawn (trace st)) command),
     log (Spawned command) st).

(** [self.history.append(result)] *)
Definition append_history (result : Result.t) : M unit :=
  fun st =>
    (Ok tt, {| history := history st ++ [result]; stdin := stdin st;
               trace := trace st |}).

(** One query to the suggestion provider. *)
Definition suggest (e : env) (query : string) : M suggestion :=
  fun st =>
    (Ok (provider e (count is_query (trace st)) query),
     log (Suggested query) st).

End World.

Notation "x <- m ;; k" := (World.bind m (fun x => k))
(at level 61, m at next level, right associativity).

(** ** [CommandExecutor]: validation and risk classification *)

Module Executor.

Definition DANGEROUS_PATTERNS : list string :=
  [ "rm\s+-rf\s+/";
    "rm\s+-rf\s+\*";
    "dd\s+if=.*of=/dev/";
    "mkfs";
    ">\s*/dev/";
    "chmod\s+-R\s+777";
    "chown\s+-R\s+root";
    "curl.*\|\s*bash";
    "wget.*\|\s*sh";
    ":\(\)\s*\{.*\}" ].

(** [re.search(pattern, command, re.IGNORECASE)] as a truth value. *)
Definition re_search_ignorecase (pattern command : string) : bool :=
  match Regex.compile pattern with
  | Some r => Regex.search true r command
  | None => false
  end.

Definition pattern_risks (command : string) : list string :=
  map (fun pattern => "Matches dangerous pattern: " ++ pattern)
      (filter (fun pattern => re_search_ignorecase pattern command)
              DANGEROUS_PATTERNS).

Definition is_dangerous (command : string) : bool * list string :=
  let risks := pattern_risks command in
  let risks :=
    if PyStr.startswith "sudo" (PyStr.strip command)
    then (risks ++ ["Requires root/admin privileges"])%list else risks in
  let risks :=
    if PyStr.contains ">" command && negb (PyStr.contains ">>" command)
    then (risks ++ ["May overwrite existing files"])%list else risks in
  let risks :=
    if PyStr.contains "|" command
       && existsb (fun shell => PyStr.contains shell command)
                  ["bash"; "sh"; "zsh"]
    then (risks ++ ["Pipes to shell - could execute arbitrary code"])%list
    else risks in
  (negb (Nat.eqb (List.length risks) 0), risks).

Definition dangerous_chars : list string := ["`"; "$(...)"; "${...}"].

Fixpoint first_marker (markers : list string) (command : string)
  : option string :=
  match markers with
  | [] => None
  | char :: rest =>
      if PyStr.contains char command then Some char
      else first_marker rest command
  end.

Definition validate_command (command : string) : bool * string :=
  if PyStr.is_empty command || PyStr.is_empty (PyStr.strip command)
  then (false, "Empty command")
  else
    match first_marker dangerous_chars command with
    | Some char => (false, "Potential shell injection: contains " ++ char)
    | None => (true, "Valid")
    end.

Import World.

Definition rejected (command reason : string) : Result.t :=
  {| Result.success := false;
     Result.command := command;
     Result.error := Some ("Invalid command: " ++ reason);
     Result.stdout := EmptyString;
     Result.stderr := EmptyString;
     Result.returncode := (-1)%Z;
     Result.is_dangerous := None;
     Result.risks := None;
     Result.dry_run := None |}.

(** The dictionary [result] of [execute], after its last update. *)
Definition outcome (command : string) (dangerous : bool)
    (risks : list string) (dry_run success : bool)
    (stdout stderr : string) (returncode : Z) : Result.t :=
  {| Result.success := success;
     Result.command := command;
     Result.error := None;
     Result.stdout := stdout;
     Result.stderr := stderr;
     Result.returncode := returncode;
     Result.is_dangerous := Some dangerous;
     Result.risks := Some risks;
     Result.dry_run := Some dry_run |}.

Definition execute (e : env) (command : string) (dry_run : bool)
  : M Result.t :=
  let (valid, reason) := validate_command command in
  if negb valid then ret (rejected command reason)
  else
    let (dangerous, risks) := is_dangerous command in
    let result := outcome command dangerous risks dry_run in
    if dry_run then
      ret (result true ("[DRY RUN] Would execute: " ++ command)
                  EmptyString 0%Z)
    else
      process <- spawn e command ;;
      match process with
      | Completed returncode stdout stderr =>
          let result :=
            result (Z.eqb returncode 0) stdout stderr returncode in
          _ <- append_history result ;;
          ret result
      | TimeoutExpired =>
          ret (result false EmptyString
                      "Command timed out after 30 seconds" (-1)%Z)
      | Failure message =>
          ret (result false EmptyString
                      ("Execution failed: " ++ message) (-1)%Z)
      end.

Definition cancelled (command : string) : Result.t :=
  {| Result.success := false;
     Result.command := command;
     Result.error := Some "Execution cancelled by user";
     Result.stdout := EmptyString;
     Result.stderr := EmptyString;
     Result.returncode := (-1)%Z;
     Result.is_dangerous := None;
     Result.risks := None;
     Result.dry_run := None |}.

Definition execute_with_confirmation (e : env) (command : string)
    (auto_confirm : bool) : M Result.t :=
  let (dangerous, risks) := is_dangerous command in
  if dangerous && negb auto_confirm then
    response <- input (Confirm command risks) ;;
    if negb (String.eqb (PyStr.lower response) "y")
    then ret (cancelled command)
    else execute e command false
  else execute e command false.

(** [get_last_error]: the newest logged outcome that failed. *)
Definition get_last_error (st : state) : option Result.t :=
  find (fun cmd => negb (Result.success cmd)) (rev (history st)).

Definition any_in (subs : list string) (s : string) : bool :=
  existsb (fun sub => PyStr.contains sub s) subs.

(** The characters of [s] before its first single quote, and the rest. *)
Fixpoint until_quote (s : string) : string * string :=
  match s with
  | EmptyString => (EmptyString, EmptyString)
  | String c s' =>
      if Ascii.eqb c "'" then (EmptyString, s)
      else let (name, rest) := until_quote s' in (String c name, rest)
  end.

Definition module_at (s : string) : option string :=
  if prefix "No module named '" s then
    let (name, rest) := until_quote (PyStr.drop 17 s) in
    if negb (PyStr.is_empty name) && prefix "'" rest
    then Some name else None
  else None.

(** [re.search(r"No module named '([^']+)'", s)], as its group 1: the
    leftmost place where the text is followed by one or more characters
    other than a quote and then by a quote. *)
Fixpoint no_module_named (s : string) : option string :=
  match module_at s with
  | Some name => Some name
  | None =>
      match s with
      | EmptyString => None
      | String _ s' => no_module_named s'
      end
  end.

Definition suggest_fix (error_result : Result.t) : res (list string) :=
  let error_text := PyStr.lower (Result.stderr error_result) in
  let command := Result.command error_result in
  if PyStr.contains "command not found" error_text then
    match PyStr.split command with
    | [] => Raise IndexError
    | cmd_name :: _ =>
        Ok [ "Install " ++ cmd_name ++ " using your package manager";
             "Check if " ++ cmd_name ++ " is in your PATH";
             "Check for typos in the command name" ]
    end
  else if PyStr.contains "permission denied" error_text then
    Ok [ "Try with sudo: sudo " ++ command;
         "Check file permissions with ls -l";
         "Ensure you have access to the file/directory" ]
  else if PyStr.contains "no such file or directory" error_text then
    Ok [ "Check if the file/directory exists";
         "Verify the path is correct";
         "Use tab completion to verify paths" ]
  else if any_in ["apt"; "yum"; "dnf"; "brew"] error_text then
    if PyStr.contains "lock" error_text then
      Ok [ "Another package manager is running";
           "Wait for it to finish or kill the process" ]
    else if PyStr.contains "not found" error_text then
      Ok [ "Update package lists first";
           "Check package name spelling" ]
    else Ok []
  else if PyStr.contains "git" command then
    if PyStr.contains "not a git repository" error_text then
      Ok [ "Initialize a git repository: git init";
           "Clone an existing repository" ]
    else if PyStr.contains "merge conflict" error_text then
      Ok [ "Resolve conflicts manually";
           "Use git status to see conflicted files" ]
    else Ok []
  else if PyStr.contains "python" command || PyStr.contains "pip" command
  then
    if PyStr.contains "modulenotfounderror" error_text then
      match no_module_named (Result.stderr error_result) with
      | Some module => Ok [ "Install missing module: pip install " ++ module ]
      | None => Ok []
      end
    else if PyStr.contains "syntaxerror" error_text then
      Ok [ "Check Python syntax";
           "Verify Python version compatibility" ]
    else Ok []
  else Ok [].

Definition replacements : list (string * string) :=
  [ ("ls-la", "ls -la");
    ("cd~", "cd ~");
    ("cd..", "cd ..");
    ("rm-rf", "rm -rf") ].

Definition clean_command (command : string) : string :=
  let command := PyStr.strip command in
  let command := PyStr.join " " (PyStr.split command) in
  fold_left
    (fun command '(typo, correct) => PyStr.replace typo correct command)
    replacements command.

(** The outcome of a spawned process. *)
Definition process_outcome (command : string) (p : process) : Result.t :=
  let result :=
    outcome command (fst (is_dangerous command))
      (snd (is_dangerous command)) false in
  match p with
  | Completed returncode stdout stderr =>
      result (Z.eqb returncode 0) stdout stderr returncode
  | TimeoutExpired =>
      result false EmptyString "Command timed out after 30 seconds" (-1)%Z
  | Failure message =>
      result false EmptyString ("Execution failed: " ++ message) (-1)%Z
  end.

Definition completed (p : process) : bool :=
  match p with Completed _ _ _ => true | _ => false end.

Definition logged (result : Result.t) (p : process) (st : state) : state :=
  if completed p
  then {| history := history st ++ [result]; stdin := stdin st;
          trace := trace st |}
  else st.

(** Call by call, whether the process of a command runs to completion:
    a rejected command spawns nothing, and [n] counts the processes
    spawned so far. *)
Fixpoint completions (e : env) (n : nat) (commands : list string)
  : list bool :=
  match commands with
  | [] => []
  | command :: rest =>
      if fst (validate_command command)
      then completed (subprocess_run e n command) :: completions e (S n) rest
      else false :: completions e n rest
  end.

(** The elements of [l] at the places where [mask] is true. *)
Fixpoint select {A} (mask : list bool) (l : list A) : list A :=
  match mask, l with
  | true :: mask', x :: l' => x :: select mask' l'
  | false :: mask', _ :: l' => select mask' l'
  | _, _ => []
  end.

(** [n] calls of [execute] that are not dry runs, one after the other. *)
Fixpoint execute_all (e : env) (commands : list string)
  : M (list Result.t) :=
  match commands with
  | [] => ret []
  | command :: rest =>
      result <- execute e command false ;;
      results <- execute_all e rest ;;
      ret (result :: results)
  end.

End Executor.

(** ** [ShellAIAssistant]: running a command and repairing it *)

Module Assistant.

Import World.

Definition nl : string := String (ascii_of_N 10) EmptyString.

(** [str(n)] for an integer. *)
Definition str_of_int (n : Z) : string :=
  NilZero.string_of_int (Z.to_int n).

(** [PromptBuilder.get_error_fix_prompt] *)
Definition get_error_fix_prompt (command error stdout : string)
    (exit_code : Z) : string :=
  "Fix this error:" ++ nl ++ nl
  ++ "Command executed: " ++ command ++ nl
  ++ "Exit code: " ++ str_of_int exit_code ++ nl
  ++ "Error output: " ++ error ++ nl
  ++ "Standard output: " ++ stdout ++ nl ++ nl
  ++ "Analyze this error and provide:" ++ nl
  ++ "1. The most likely fix command" ++ nl
  ++ "2. Clear explanation of what went wrong" ++ nl
  ++ "3. Alternative solutions for different possible causes" ++ nl
  ++ "4. Any necessary prerequisites or checks".

(** [get_command_suggestion]: the provider's answer; its own failures
    come back as a suggestion too. *)
Definition get_command_suggestion (e : env) (user_input : string)
  : M suggestion := suggest e user_input.

Inductive choice : Type := execute | cancel | edit | alternatives | quit.

Definition one_of (s : string) (l : list string) : bool :=
  existsb (String.eqb s) l.

Definition read_choice (answer : string) : option choice :=
  if one_of answer ["y"; "yes"] then Some execute
  else if one_of answer ["n"; "no"] then Some cancel
  else if one_of answer ["e"; "edit"] then Some edit
  else if one_of answer ["a"; "alternatives"] then Some alternatives
  else if one_of answer ["q"; "quit"] then Some quit
  else None.

(** The [while True] of [get_user_choice], run at most [n] times. *)
Fixpoint choice_loop (n : nat) : M choice :=
  match n with
  | O => out_of_fuel
  | S n' =>
      answer <- input Choice ;;
      match read_choice (PyStr.strip (PyStr.lower answer)) with
      | Some c => ret c
      | None => choice_loop n'
      end
  end.

(** [get_user_choice]: every turn of the loop reads one line, so one
    turn more than there are lines is enough. *)
Definition get_user_choice (s : suggestion) : M choice :=
  fun st => choice_loop (S (List.length (stdin st))) st.

Definition failed_for_repair (result : Result.t) : bool :=
  negb (Result.success result)
  && negb (Z.eqb (Result.returncode result) (-1)).

(** [execute_command], unfolded at most [fuel] times. *)
Fixpoint execute_command (e : env) (fuel : nat) (command : string)
    (safe : bool) : M bool :=
  match fuel with
  | O => out_of_fuel
  | S fuel' =>
      result <- Executor.execute_with_confirmation e command safe ;;
      if failed_for_repair result then
        except_interrupt
          (answer <- input HelpOffer ;;
           if one_of (PyStr.lower (PyStr.strip answer)) ["y"; "yes"] then
             let error_context :=
               get_error_fix_prompt (Result.command result)
                 (Result.stderr result) (Result.stdout result)
                 (Result.returncode result) in
             suggestion <- get_command_suggestion e error_context ;;
             fix_choice <- get_user_choice suggestion ;;
             match fix_choice with
             | execute =>
                 execute_command e fuel' (s_command suggestion) false
             | _ => ret (Result.success result)
             end
           else ret (Result.success result))
          (ret (Result.success result))
      else ret (Result.success result)
  end.

(** A top-level call of [execute_command].  Every unfolding but the last
    reads a line of the terminal before the next one, so one unfolding
    more than there are lines is enough. *)
Definition run_execute_command (e : env) (command : string) (safe : bool)
  : M bool :=
  fun st => execute_command e (S (List.length (stdin st))) command safe st.

End Assistant.

(** ** [ShellAIAssistant]: requests, direct commands, alternatives *)

Module Session.

Import World.

(** [input(...)] at a prompt the trace does not record: the next line of
    the terminal, [EOFError] at its end. *)
Definition read_line : M string :=
  fun st =>
    match stdin st with
    | [] => (Raise EOFError, st)
    | Line text :: rest =>
        (Ok text, {| history := history st; stdin := rest;
                     trace := trace st |})
    | Interrupt :: rest =>
        (Raise KeyboardInterrupt,
         {| history := history st; stdin := rest; trace := trace st |})
    end.

(** A value or an exception computed without the world. *)
Definition lift {A} (r : res A) : M A := fun st => (r, st).

(** The whitespace [int] skips around a number: TAB..CR, SPACE, NEL,
    NBSP. *)
Definition int_space (c : ascii) : bool :=
  PyStr.between 9 13 (PyStr.code c) || N.eqb (PyStr.code c) 32
  || N.eqb (PyStr.code c) 133 || N.eqb (PyStr.code c) 160.

Fixpoint int_lstrip (s : string) : string :=
  match s with
  | EmptyString => EmptyString
  | String c s' => if int_space c then int_lstrip s' else s
  end.

Fixpoint int_rstrip (s : string) : string :=
  match s with
  | EmptyString => EmptyString
  | String c s' =>
      match int_rstrip s' with
      | EmptyString => if int_space c then EmptyString else String c EmptyString
      | r => String c r
      end
  end.

Definition digit_value (c : ascii) : Z := (Z.of_N (PyStr.code c) - 48)%Z.

(** Decimal digits, with single underscores between digits only. *)
Fixpoint digits (acc : Z) (after_digit : bool) (s : string) : option Z :=
  match s with
  | EmptyString => if after_digit then Some acc else None
  | String c s' =>
      if Regex.is_digit c then digits (10 * acc + digit_value c)%Z true s'
      else if Ascii.eqb c "_" && after_digit then digits acc false s'
      else None
  end.

(** [int(s)] for a string: [None] stands for [ValueError].  The limit
    CPython 3.11 puts on the number of digits is not modelled. *)
Definition int_of_str (s : string) : option Z :=
  match int_rstrip (int_lstrip s) with
  | String "-" s' => option_map Z.opp (digits 0 false s')
  | String "+" s' => digits 0 false s'
  | s' => digits 0 false s'
  end.

(** [handle_alternatives]: the alternative the user picks by its number,
    counted from one. *)
Definition handle_alternatives (alternatives : list string)
  : M (option string) :=
  match alternatives with
  | [] => ret None
  | _ =>
      choice <- read_line ;;
      if String.eqb (PyStr.lower choice) "c" then ret None
      else
        match int_of_str choice with
        | None => ret None
        | Some n =>
            let alt_index := (n - 1)%Z in
            if ((0 <=? alt_index)
                && (alt_index <? Z.of_nat (List.length alternatives)))%Z
            then ret (nth_error alternatives (Z.to_nat alt_index))
            else ret None
        end
  end.

(** [execute_direct_command] *)
Definition execute_direct_command (e : env) (command : string) : M unit :=
  result <- Executor.execute e command false ;;
  if Assistant.failed_for_repair result then
    suggestions <- lift (Executor.suggest_fix result) ;;
    answer <- input HelpOffer ;;
    if Assistant.one_of (PyStr.lower (PyStr.strip answer)) ["y"; "yes"] then
      let error_context :=
        Assistant.get_error_fix_prompt (Result.command result)
          (Result.stderr result) (Result.stdout result)
          (Result.returncode result) in
      suggestion <- Assistant.get_command_suggestion e error_context ;;
      fix_choice <- Assistant.get_user_choice suggestion ;;
      match fix_choice with
      | Assistant.execute =>
          _ <- Assistant.run_execute_command e (s_command suggestion) false ;;
          ret tt
      | _ => ret tt
      end
    else ret tt
  else ret tt.

(** [execute_command] called for its effect. *)
Definition run_command (e : env) (command : string) (safe : bool) : M unit :=
  _ <- Assistant.run_execute_command e command safe ;; ret tt.

(** [process_request] *)
Definition process_request (e : env) (user_input : string) : M unit :=
  if PyStr.startswith "/" user_input then
    let direct_command := PyStr.strip (PyStr.drop 1 user_input) in
    if negb (PyStr.is_empty direct_command)
    then execute_direct_command e direct_command
    else ret tt
  else
    suggestion <- Assistant.get_command_suggestion e user_input ;;
    choice <- Assistant.get_user_choice suggestion ;;
    match choice with
    | Assistant.execute =>
        run_command e (s_command suggestion) (safe_to_auto_execute suggestion)
    | Assistant.edit =>
        new_command <- read_line ;;
        if negb (PyStr.is_empty (PyStr.strip new_command))
        then run_command e new_command false
        else ret tt
    | Assistant.alternatives =>
        alt_command <- handle_alternatives (s_alternatives suggestion) ;;
        match alt_command with
        | Some command =>
            if negb (PyStr.is_empty command)
            then run_command e command false
            else ret tt
        | None => ret tt
        end
    | Assistant.cancel => ret tt
    | Assistant.quit => raise KeyboardInterrupt
    end.

End Session.

(** ** [ShellAIAssistant.add_to_history] and the interactive loop *)

Module Conversation.

(** One entry of [conversation_history]: the role and the content. *)
Definition message : Type := (string * string)%type.

(** [l[i:]] *)
Definition slice_from {A} (i : Z) (l : list A) : list A :=
  let n := Z.of_nat (List.length l) in
  let start := if (i <? 0)%Z then Z.max 0 (n + i) else Z.min i n in
  skipn (Z.to_nat start) l.

(** [add_to_history], where [max_entries] is the integer
    [config.get('history.max_entries', 20)] gives. *)
Definition add_to_history (max_entries : Z) (conversation_history : list message)
    (role content : string) : list message :=
  let conversation_history :=
    (conversation_history ++ [(role, content)])%list in
  if (max_entries <? Z.of_nat (List.length conversation_history))%Z
  then slice_from (- max_entries) conversation_history
  else conversation_history.

End Conversation.

Module Main.

Import World.

Inductive step : Type := stop | again.

(** One turn of the loop of [run_interactive_session], before its
    [except] clauses.  [help], [clear] and [history] only write to the
    screen. *)
Definition turn (e : env) : M step :=
  line <- Session.read_line ;;
  let user_input := PyStr.strip line in
  if Assistant.one_of (PyStr.lower user_input) ["quit"; "exit"; "bye"]
  then ret stop
  else if Assistant.one_of (PyStr.lower user_input) ["help"; "?"]
  then ret again
  else if String.eqb (PyStr.lower user_input) "clear" then ret again
  else if String.eqb (PyStr.lower user_input) "history" then ret again
  else if PyStr.is_empty user_input then ret again
  else
    _ <- Session.process_request e user_input ;;
    ret again.

(** [run_interactive_session], its [while True] run at most [fuel]
    times: [KeyboardInterrupt] ends the loop, any other exception is
    reported and the loop goes on. *)
Fixpoint run_interactive_session (e : env) (fuel : nat) : M unit :=
  match fuel with
  | O => out_of_fuel
  | S fuel' =>
      fun st =>
        match turn e st with
        | (Ok stop, st') => (Ok tt, st')
        | (Ok again, st') => run_interactive_session e fuel' st'
        | (Raise KeyboardInterrupt, st') => (Ok tt, st')
        | (Raise _, st') => run_interactive_session e fuel' st'
        | (OutOfFuel, st') => (OutOfFuel, st')
        end
  end.


End Main.

(** ** What a trace may look like *)

Module Trace.

Import World.

(** [chain ok prev evs]: every event of [evs] is allowed after the event
    before it, [prev] being the event before the first one. *)
Fixpoint chain (ok : option event -> event -> bool) (prev : option event)
    (evs : list event) : bool :=
  match evs with
  | [] => true
  | ev :: rest => ok prev ev && chain ok (Some ev) rest
  end.

(** The event before is the confirmation prompt for [command]. *)
Definition confirms (command : string) (prev : option event) : bool :=
  match prev with
  | Some (Asked (Confirm c _)) => String.eqb c command
  | _ => false
  end.

(** A process is spawned for a command the validator accepts. *)
Definition valid_ok (prev : option event) (ev : event) : bool :=
  match ev with
  | Spawned c => fst (Executor.validate_command c)
  | _ => true
  end.

(** A process for a dangerous command comes right after its
    confirmation prompt. *)
Definition gate_ok (prev : option event) (ev : event) : bool :=
  match ev with
  | Spawned c => negb (fst (Executor.is_dangerous c)) || confirms c prev
  | _ => true
  end.

(** A query to the provider comes right after the offer of help. *)
Definition consent_ok (prev : option event) (ev : event) : bool :=
  match ev with
  | Suggested _ =>
      match prev with Some (Asked HelpOffer) => true | _ => false end
  | _ => true
  end.

(** The events of one call of [execute_with_confirmation]. *)
Inductive attempt (c : string) (auto : bool) : list event -> Prop :=
| attempt_nothing : attempt c auto []
| attempt_spawn :
    fst (Executor.validate_command c) = true ->
    fst (Executor.is_dangerous c) = false \/ auto = true ->
    attempt c auto [Spawned c]
| attempt_asked risks : attempt c auto [Asked (Confirm c risks)]
| attempt_confirmed risks :
    fst (Executor.validate_command c) = true ->
    attempt c auto [Asked (Confirm c risks); Spawned c].

(** The events of one call of [execute_command]: an attempt, then the
    offer of help, then the query and the choices, then the events of
    the call for the fix. *)
Inductive run : string -> bool -> list event -> Prop :=
| run_attempt c safe a : attempt c safe a -> run c safe a
| run_offer c safe a :
    attempt c safe a -> run c safe (a ++ [Asked HelpOffer])
| run_query c safe a q n :
    attempt c safe a ->
    run c safe
      (a ++ Asked HelpOffer :: Suggested q :: repeat (Asked Choice) n)
| run_repair c safe a q n c' evs :
    attempt c safe a ->
    run c' false evs ->
    run c safe
      (a ++ Asked HelpOffer :: Suggested q :: repeat (Asked Choice) n ++ evs).

(** The process ran and ended with an exit code other than 0. *)
Definition exit_failure (p : process) : bool :=
  match p with
  | Completed returncode _ _ => negb (Z.eqb returncode 0)
  | _ => false
  end.

(** What holds of every outcome in the log. *)
Definition logged_ok (r : Result.t) : bool :=
  Bool.eqb (Result.success r) (Z.eqb (Result.returncode r) 0)
  && fst (Executor.validate_command (Result.command r))
  && match Result.error r, Result.dry_run r with
     | None, Some false => true
     | _, _ => false
     end.

End Trace.

(** ** [Config]: values by dotted keys *)

Module Config.

(** A value of the configuration.  A dictionary is an object of the
    heap, known by its address: two places that hold the same address
    share the dictionary. *)
#[warnings="-register-all"]
Inductive value : Type :=
| VNone
| VBool (b : bool)
| VInt (n : Z)
| VFloat (text : string)
| VStr (s : string)
| VList (l : list value)
| VDict (address : nat).

Definition dict : Type := list (string * value).

Definition heap : Type := list dict.

(** [d.get(k)] *)
Fixpoint lookup (k : string) (d : dict) : option value :=
  match d with
  | [] => None
  | (k', v) :: d' => if String.eqb k' k then Some v else lookup k d'
  end.

(** [d[k] = v]: the key keeps its place when it is there, and comes
    last otherwise. *)
Fixpoint assign (k : string) (v : value) (d : dict) : dict :=
  match d with
  | [] => [(k, v)]
  | (k', v') :: d' =>
      if String.eqb k' k then (k', v) :: d' else (k', v') :: assign k v d'
  end.

Fixpoint write (h : heap) (address : nat) (d : dict) : heap :=
  match h, address with
  | [], _ => []
  | _ :: h', O => d :: h'
  | d' :: h', S a => d' :: write h' a d
  end.

(** A new object. *)
Definition alloc (h : heap) (d : dict) : nat * heap :=
  (List.length h, (h ++ [d])%list).

(** [s.split(sep)] for a separator of one character. *)
Fixpoint split_on (sep : ascii) (s : string) : list string :=
  match s with
  | EmptyString => [EmptyString]
  | String c s' =>
      match split_on sep s' with
      | [] => [String c EmptyString]
      | first :: others =>
          if Ascii.eqb c sep then EmptyString :: first :: others
          else String c first :: others
      end
  end.

(** The loop of [get] over the keys. *)
Fixpoint get_keys (h : heap) (keys : list string) (v default : value)
  : value :=
  match keys with
  | [] => v
  | k :: keys' =>
      match v with
      | VDict a =>
          match nth_error h a with
          | Some d =>
              match lookup k d with
              | Some v' => get_keys h keys' v' default
              | None => default
              end
          | None => default
          end
      | _ => default
      end
  end.

(** [Config.get(key, default)], for the configuration at [root]. *)
Definition get (h : heap) (root : nat) (key : string) (default : value)
  : value :=
  get_keys h (split_on "." key) (VDict root) default.

Inductive status : Type := Done | TypeError | IndexError.

(** The loop of [set] over the keys and its last assignment.  On a
    value that is not a dictionary, the test [k not in config], the
    assignment or the subscript raises [TypeError]. *)
Fixpoint set_keys (keys : list string) (v config : value) (h : heap)
  : status * heap :=
  match keys with
  | [] => (IndexError, h)
  | [k] =>
      match config with
      | VDict a =>
          match nth_error h a with
          | Some d => (Done, write h a (assign k v d))
          | None => (TypeError, h)
          end
      | _ => (TypeError, h)
      end
  | k :: keys' =>
      match config with
      | VDict a =>
          match nth_error h a with
          | Some d =>
              match lookup k d with
              | Some child => set_keys keys' v child h
              | None =>
                  let (b, h1) := alloc h [] in
                  set_keys keys' v (VDict b)
                           (write h1 a (assign k (VDict b) d))
              end
          | None => (TypeError, h)
          end
      | _ => (TypeError, h)
      end
  end.

(** [Config.set(key, value)] *)
Definition set (h : heap) (root : nat) (key : string) (v : value)
  : status * heap :=
  set_keys (split_on "." key) v (VDict root) h.

(** [d.copy()]: a new dictionary with the same entries, the
    dictionaries in them shared. *)
Definition copy (h : heap) (address : nat) : nat * heap :=
  match nth_error h address with
  | Some d => alloc h d
  | None => alloc h []
  end.

Definition has (k : string) (d : dict) : bool :=
  match lookup k d with Some _ => true | None => false end.

(** What [save] does to the heap, whether the file can be written or
    not: the key is hidden in the copy before the file is opened, and
    every exception is caught. *)
Definition save (h : heap) (root : nat) : heap :=
  let (save_config, h1) := copy h root in
  match nth_error h1 save_config with
  | Some d =>
      match lookup "openai" d with
      | Some (VDict a) =>
          match nth_error h1 a with
          | Some openai =>
              if has "api_key" openai
              then write h1 a (assign "api_key" (VStr "***") openai)
              else h1
          | None => h1
          end
      | _ => h1
      end
  | None => h1
  end.

(** The heap when the class is loaded: [DEFAULTS] at 0 and its four
    dictionaries after it. *)
Definition DEFAULTS : heap :=
  [ [ ("provider", VStr "openai");
      ("openai", VDict 1);
      ("ollama", VDict 2);
      ("history", VDict 3);
      ("safety", VDict 4) ];
    [ ("api_key", VNone);
      ("model", VStr "gpt-4");
      ("temperature", VFloat "0.1");
      ("max_tokens", VInt 1000) ];
    [ ("host", VStr "http://localhost:11434");
      ("model", VStr "deepseek-r1:8b");
      ("temperature", VFloat "0.1");
      ("max_tokens", VInt 1000);
      ("available_models",
       VList [ VStr "deepseek-r1:32b"; VStr "deepseek-r1:8b";
               VStr "qwen2.5:32b"; VStr "qwen2.5:7b";
               VStr "qwen3:8b"; VStr "llama3.1:8b" ]) ];
    [ ("max_entries", VInt 20);
      ("save_to_file", VBool true);
      ("file_path", VStr "~/.shell_ai_history.json") ];
    [ ("auto_execute_safe_commands", VBool false);
      ("require_confirmation_for_sudo", VBool true);
      ("dangerous_patterns",
       VList [ VStr "rm -rf /"; VStr "dd if="; VStr "mkfs"; VStr "format";
               VStr "> /dev/"; VStr "chmod -R 777"; VStr "curl | bash";
               VStr "wget -O- | sh" ]) ] ].

(** [Config()] when there is no configuration file and none of the
    environment variables is set: [self.config = DEFAULTS.copy()]. *)
Definition new (h : heap) : nat * heap := copy h 0.

End Config.

(** ** The text of a suggestion *)

Module Prompts.

Definition fence : string := "```".

Definition nl : string := String Regex.newline EmptyString.

Definition is_lower (c : ascii) : bool := PyStr.between 97 122 (PyStr.code c).

Definition is_open (c : ascii) : bool := Ascii.eqb c "{".

Definition is_close (c : ascii) : bool := Ascii.eqb c "}".

(** The text after the longest run of [[a-z]] at the start of [s]. *)
Fixpoint after_letters (s : string) : string :=
  match s with
  | EmptyString => EmptyString
  | String c s' => if is_lower c then after_letters s' else s
  end.

(** [re.sub(r'^```[a-z]*\n', '', s)]: the pattern can match at the
    start only, and matches there when the line feed comes right after
    the letters. *)
Definition open_fence (s : string) : string :=
  if prefix fence s
  then match after_letters (PyStr.drop 3 s) with
       | String c rest => if Ascii.eqb c Regex.newline then rest else s
       | EmptyString => s
       end
  else s.

(** [re.sub(r'\n```$', '', s)]: [$] is the end of the text or the place
    before a line feed that ends it, so that the one match, if any, is
    the end of the text, or all of it but a last line feed. *)
Fixpoint close_fence (s : string) : string :=
  match s with
  | EmptyString => EmptyString
  | String c s' =>
      if String.eqb s (nl ++ fence) then EmptyString
      else if String.eqb s (nl ++ fence ++ nl) then nl
      else String c (close_fence s')
  end.

(** [[^{}]*\}] at the start of [s]: the text up to the first brace and
    that brace, when it is a closing one. *)
Fixpoint body (s : string) : option string :=
  match s with
  | EmptyString => None
  | String c s' =>
      if is_close c then Some (String c EmptyString)
      else if is_open c then None
      else option_map (String c) (body s')
  end.

(** [re.search(r'\{[^{}]*\}', s, re.DOTALL)]: the match that starts
    first. *)
Fixpoint search_object (s : string) : option string :=
  match s with
  | EmptyString => None
  | String c s' =>
      if is_open c
      then match body s' with
           | Some m => Some (String c m)
           | None => search_object s'
           end
      else search_object s'
  end.

(** The text that [validate_json_response] gives to [json.loads]. *)
Definition response_text (response : string) : string :=
  let response := PyStr.strip response in
  let response :=
    if PyStr.startswith fence response
    then close_fence (open_fence response)
    else response in
  match search_object response with
  | Some m => m
  | None => response
  end.

(** No closing brace. *)
Fixpoint no_close (s : string) : bool :=
  match s with
  | EmptyString => true
  | String c s' => negb (is_close c) && no_close s'
  end.

(** No brace at all. *)
Fixpoint no_brace (s : string) : bool :=
  match s with
  | EmptyString => true
  | String c s' => negb (is_close c) && negb (is_open c) && no_brace s'
  end.

End Prompts.

(** ** The shape of a cleaned command *)

Module Text.

(** [tidy_from after_space s]: every whitespace character of [s] is a
    single space between two words, where [after_space] tells whether
    [s] comes after a space or at the start of the text. *)
Fixpoint tidy_from (after_space : bool) (s : string) : bool :=
  match s with
  | EmptyString => negb after_space
  | String c s' =>
      if PyStr.isspace c
      then Ascii.eqb c " " && negb after_space && tidy_from true s'
      else tidy_from false s'
  end.

(** Words separated by single spaces, and nothing else. *)
Definition tidy (s : string) : bool := PyStr.is_empty s || tidy_from true s.

Fixpoint no_space (s : string) : bool :=
  match s with
  | EmptyString => true
  | String c s' => negb (PyStr.isspace c) && no_space s'
  end.

Definition word (s : string) : bool := negb (PyStr.is_empty s) && no_space s.

(** The text after the first word of a tidy text. *)
Definition rest (ts : list string) : string :=
  match ts with
  | [] => EmptyString
  | _ => " " ++ PyStr.join " " ts
  end.

(** The non-empty suffixes of [s], longest first. *)
Fixpoint suffixes (s : string) : list string :=
  match s with
  | EmptyString => []
  | String _ s' => s :: suffixes s'
  end.

(** No suffix of [p] starts like [r] or the other way round. *)
Definition unlike (r p : string) : bool :=
  forallb (fun p' => negb (prefix p' r) && negb (prefix r p')) (suffixes p).

(** [apart r p]: putting [r] into a text cannot make an occurrence of
    [p]: [p] and [r] do not overlap at either end, and [p] is not in
    [r]. *)
Definition apart (r p : string) : bool :=
  unlike r p
  && negb (PyStr.contains p r)
  && forallb (fun r' => negb (prefix r' p)) (suffixes r).

(** Every correction is apart from its own typo and from the typos
    corrected before it. *)
Fixpoint corrections_apart (before : list string)
    (l : list (string * string)) : bool :=
  match l with
  | [] => true
  | (typo, correct) :: l' =>
      forallb (apart correct) (typo :: before)
      && corrections_apart (typo :: before) l'
  end.

(** The loop of [clean_command] over a table of corrections. *)
Definition correct_all (l : list (string * string)) (command : string)
  : string :=
  fold_left
    (fun command '(typo, correct) => PyStr.replace typo correct command)
    l command.

(** A table of corrections between tidy texts, each apart from the typos
    up to its own. *)
Definition tidy_pair (c : string * string) : bool :=
  let (typo, correct) := c in tidy_from true typo && tidy_from true correct.

Definition well_formed (l : list (string * string)) : bool :=
  forallb tidy_pair l && corrections_apart [] l.

End Text.

(** ** Worlds for the scenarios *)

Module Scenario.

Import World.

Definition no_suggestion : suggestion :=
  {| s_command := "echo 'Error parsing AI response'";
     s_explanation := "AI response was not valid JSON";
     s_risks := ["Response parsing failed"];
     s_alternatives := [];
     safe_to_auto_execute := false |}.

(** A shell in which every command exits with status 0 and no output. *)
Definition calm : env :=
  {| subprocess_run := fun _ _ => Completed 0 EmptyString EmptyString;
     provider := fun _ _ => no_suggestion |}.

(** A shell in which no command ends within the deadline. *)
Definition stuck : env :=
  {| subprocess_run := fun _ _ => TimeoutExpired;
     provider := fun _ _ => no_suggestion |}.

(** A shell in which every command exits with status 1, and a provider
    that always proposes [make]. *)
Definition failing : env :=
  {| subprocess_run := fun _ _ => Completed 1 EmptyString "error: failed";
     provider := fun _ q =>
       {| s_command := "make";
          s_explanation := q;
          s_risks := [];
          s_alternatives := [];
          safe_to_auto_execute := false |} |}.

(** A fresh executor in front of a user who will type [lines]. *)
Definition fresh (lines : list string) : state :=
  {| history := []; stdin := map Line lines; trace := [] |}.

End Scenario.

(** * Properties *)

(** ** The risk classifier *)

Section Classifier.

Import Executor.

Lemma DANGEROUS_PATTERNS_compile :
  forallb (fun p => match Regex.compile p with Some _ => true | None => false end)
          DANGEROUS_PATTERNS = true.
Proof. vm_compute. reflexivity. Qed.

(** The verdict is dangerous exactly when the list of risks is not empty. *)
Lemma is_dangerous_iff_risks (command : string) :
  fst (is_dangerous command) = true <-> snd (is_dangerous command) <> [].
Proof.
  unfold is_dangerous. cbv zeta. simpl fst. simpl snd.
  destruct (if PyStr.contains "|" command && _ then _ else _) as [|r rs].
  - simpl. split; [discriminate | congruence].
  - simpl. split; [discriminate | reflexivity].
Qed.

(** C8, as the code has it: [is_dangerous("rm -rf /")] is dangerous, and
    its one reason quotes the source text of the pattern that matched,
    the regular expression [rm\s+-rf\s+/]. *)
Theorem is_dangerous_rm_rf_root :
  is_dangerous "rm -rf /"
  = (true, ["Matches dangerous pattern: rm\s+-rf\s+/"]).
Proof. vm_compute. reflexivity. Qed.

(** C8, as stated, fails: the reason is not the text
    [Matches dangerous pattern: rm -rf /]. *)
Lemma is_dangerous_rm_rf_root_reason_differs :
  is_dangerous "rm -rf /"
  <> (true, ["Matches dangerous pattern: rm -rf /"]).
Proof. vm_compute. intro H. discriminate H. Qed.

Example is_dangerous_ls : is_dangerous "ls -la" = (false, []).
Proof. vm_compute. reflexivity. Qed.

Example is_dangerous_ignores_case :
  fst (is_dangerous "RM  -RF  /tmp") = true.
Proof. vm_compute. reflexivity. Qed.

End Classifier.

(** ** The validator *)

Section Validator.

Import Executor.

Lemma prefix_app (a b s : string) :
  prefix (a ++ b) s = true -> prefix a s = true.
Proof.
  revert s. induction a as [|x a IH]; intros s H.
  - destruct s; reflexivity.
  - destruct s as [|y s]; simpl in *; [discriminate|].
    destruct (ascii_dec x y); [eauto | discriminate].
Qed.

Lemma contains_app (a b s : string) :
  PyStr.contains (a ++ b) s = true -> PyStr.contains a s = true.
Proof.
  induction s as [|y s IH]; intros H; cbn [PyStr.contains] in *;
    apply orb_true_iff in H; apply orb_true_iff;
    (destruct H as [H|H]; [left; eapply prefix_app; eassumption|]).
  - discriminate.
  - right. auto.
Qed.

(** C3 at a command substitution: [validate_command] looks for the
    six-character text [$(...)], so a command that opens a substitution
    with [$(] is accepted. *)
Theorem validate_command_accepts_substitution :
  PyStr.contains "$(" "echo $(whoami)" = true /\
  validate_command "echo $(whoami)" = (true, "Valid").
Proof. vm_compute. split; reflexivity. Qed.

Example validate_command_accepts_parameter :
  PyStr.contains "${" "echo ${HOME}" = true /\
  validate_command "echo ${HOME}" = (true, "Valid").
Proof. vm_compute. split; reflexivity. Qed.

Example validate_command_empty :
  validate_command EmptyString = (false, "Empty command").
Proof. reflexivity. Qed.

(** What the validator does reject: a text with a backtick. *)
Lemma validate_command_backtick (command : string) :
  PyStr.strip command <> EmptyString ->
  PyStr.contains "`" command = true ->
  validate_command command
  = (false, "Potential shell injection: contains `").
Proof.
  intros Hne Hb. unfold validate_command.
  destruct command as [|c s]; [elim Hne; reflexivity|].
  destruct (PyStr.strip (String c s)) eqn:E; [elim Hne; reflexivity|].
  simpl PyStr.is_empty. simpl orb. cbv iota.
  unfold dangerous_chars, first_marker. rewrite Hb. reflexivity.
Qed.

(** What the validator does accept: a text with a character that is not
    whitespace and with none of the three markers. *)
Lemma validate_command_clean (command : string) :
  PyStr.strip command <> EmptyString ->
  PyStr.contains "`" command = false ->
  PyStr.contains "$(" command = false ->
  PyStr.contains "${" command = false ->
  validate_command command = (true, "Valid").
Proof.
  intros Hne Hb Hc Hp. unfold validate_command.
  destruct command as [|c s]; [elim Hne; reflexivity|].
  destruct (PyStr.strip (String c s)) eqn:E; [elim Hne; reflexivity|].
  simpl PyStr.is_empty. simpl orb. cbv iota.
  unfold dangerous_chars, first_marker. rewrite Hb.
  destruct (PyStr.contains "$(...)" (String c s)) eqn:E1.
  { apply (contains_app "$(" "...)") in E1. congruence. }
  destruct (PyStr.contains "${...}" (String c s)) eqn:E2.
  { apply (contains_app "${" "...}") in E2. congruence. }
  reflexivity.
Qed.

(** The validator is total and answers [Valid] or gives a reason. *)
Lemma validate_command_reason (command : string) :
  validate_command command = (true, "Valid") \/
  fst (validate_command command) = false.
Proof.
  unfold validate_command.
  destruct (PyStr.is_empty command || _); [right; reflexivity|].
  destruct (first_marker _ _); [right | left]; reflexivity.
Qed.

End Validator.

(** ** The process runner and the confirmation gate *)

Section Runner.

Import World Executor.

Variable e : env.

(** What [execute] does, path by path. *)
Lemma execute_rejected (command : string) (dry_run : bool) (st : state) :
  fst (validate_command command) = false ->
  execute e command dry_run st
  = (Ok (rejected command (snd (validate_command command))), st).
Proof.
  intros H. unfold execute.
  destruct (validate_command command) as [valid reason].
  simpl in H. subst valid. reflexivity.
Qed.

Lemma execute_dry_run (command : string) (st : state) :
  fst (validate_command command) = true ->
  execute e command true st
  = (Ok (outcome command (fst (is_dangerous command))
           (snd (is_dangerous command)) true true
           ("[DRY RUN] Would execute: " ++ command) EmptyString 0%Z), st).
Proof.
  intros H. unfold execute.
  destruct (validate_command command) as [valid reason].
  simpl in H. subst valid.
  destruct (is_dangerous command) as [dangerous risks]. reflexivity.
Qed.

Lemma execute_spawned (command : string) (st : state) :
  fst (validate_command command) = true ->
  let p := subprocess_run e (count is_spawn (trace st)) command in
  execute e command false st
  = (Ok (process_outcome command p),
     logged (process_outcome command p) p (log (Spawned command) st)).
Proof.
  intros H p. subst p. unfold execute.
  destruct (validate_command command) as [valid reason].
  simpl in H. subst valid. simpl negb. cbv iota.
  unfold process_outcome, logged.
  destruct (is_dangerous command) as [dangerous risks].
  unfold bind, spawn. cbn beta iota delta [negb fst snd].
  destruct (subprocess_run e (count is_spawn (trace st)) command);
    reflexivity.
Qed.

End Runner.

Section Gate.

Import World Executor.
Local Open Scope list_scope.

Variable e : env.

Lemma count_log (f : event -> bool) (ev : event) (st : state) :
  count f (trace (log ev st))
  = count f (trace st) + (if f ev then 1 else 0).
Proof.
  unfold count, log. simpl. rewrite filter_app, length_app. simpl.
  destruct (f ev); reflexivity.
Qed.

Lemma trace_logged (r : Result.t) (p : process) (st : state) :
  trace (logged r p st) = trace st.
Proof. unfold logged. destruct (completed p); reflexivity. Qed.

Lemma stdin_logged (r : Result.t) (p : process) (st : state) :
  stdin (logged r p st) = stdin st.
Proof. unfold logged. destruct (completed p); reflexivity. Qed.

(** The events of one call of [execute]: one process, when the command is
    valid and the call is not a dry run. *)
Lemma execute_trace (command : string) (dry_run : bool) (st : state) :
  trace (snd (execute e command dry_run st))
  = trace st
    ++ (if fst (validate_command command) && negb dry_run
        then [Spawned command] else []).
Proof.
  destruct (fst (validate_command command)) eqn:V.
  - destruct dry_run.
    + rewrite execute_dry_run by assumption. simpl. now rewrite app_nil_r.
    + rewrite execute_spawned by assumption. simpl snd.
      rewrite trace_logged. reflexivity.
  - rewrite execute_rejected by assumption. simpl. now rewrite app_nil_r.
Qed.

(** C6, as the code has it: a dry run leaves the state as it was (no
    process is spawned, nothing is logged); for a command the validator
    accepts the outcome is a success with exit code 0 and the
    would-execute message, and for a command it rejects the outcome is
    the rejection. *)
Theorem execute_dry_run_outcome (command : string) (st : state) :
  exists r,
    execute e command true st = (Ok r, st) /\
    if fst (validate_command command)
    then Result.success r = true /\ Result.returncode r = 0%Z /\
         Result.stdout r = ("[DRY RUN] Would execute: " ++ command)%string
    else Result.success r = false /\ Result.returncode r = (-1)%Z.
Proof.
  destruct (fst (validate_command command)) eqn:V.
  - eexists. split; [apply execute_dry_run; assumption|]. repeat split.
  - eexists. split; [apply execute_rejected; assumption|]. repeat split.
Qed.

(** C7: when the process does not end within the deadline, the outcome is
    a failure with exit code -1, no output and the timeout message, and
    the call has spawned that one process only. *)
Theorem execute_timeout (command : string) (st : state) :
  fst (validate_command command) = true ->
  subprocess_run e (count is_spawn (trace st)) command = TimeoutExpired ->
  exists r,
    execute e command false st = (Ok r, log (Spawned command) st) /\
    Result.success r = false /\
    Result.returncode r = (-1)%Z /\
    Result.stdout r = EmptyString /\
    Result.stderr r = "Command timed out after 30 seconds" /\
    count is_spawn (trace (log (Spawned command) st))
    = S (count is_spawn (trace st)).
Proof.
  intros V T. eexists. split.
  - rewrite execute_spawned by assumption. cbv zeta. rewrite T. reflexivity.
  - repeat split. rewrite count_log. simpl. lia.
Qed.

(** C5: a dangerous command that is not auto-confirmed and whose prompt
    is answered by anything but [y] or [Y] is cancelled: the outcome is a
    failure with exit code -1, and the only thing that happened is the
    prompt; no process is spawned and nothing is logged. *)
Theorem execute_with_confirmation_denied
    (command answer : string) (rest : list keyboard) (st : state) :
  fst (is_dangerous command) = true ->
  stdin st = Line answer :: rest ->
  PyStr.lower answer <> "y" ->
  execute_with_confirmation e command false st
  = (Ok (cancelled command),
     {| history := history st; stdin := rest;
        trace := trace st
                 ++ [Asked (Confirm command (snd (is_dangerous command)))] |})
  /\ Result.success (cancelled command) = false
  /\ Result.returncode (cancelled command) = (-1)%Z.
Proof.
  intros D I N. split; [|split; reflexivity].
  unfold execute_with_confirmation.
  destruct (is_dangerous command) as [dangerous risks].
  simpl in D. subst dangerous. simpl.
  unfold bind, input. simpl. rewrite I.
  destruct (String.eqb_spec (PyStr.lower answer) "y") as [E|E];
    [contradiction|]. reflexivity.
Qed.

(** C1, as the code has it: for a dangerous command the prompt comes
    first, and at most the one process after it, when [auto_confirm] is
    false; when it is true the gate is skipped and the call is the call
    of [execute]. *)
Theorem execute_with_confirmation_gate (command : string) (st : state) :
  fst (is_dangerous command) = true ->
  (exists after,
     trace (snd (execute_with_confirmation e command false st))
     = trace st
       ++ Asked (Confirm command (snd (is_dangerous command))) :: after
     /\ (after = [] \/ after = [Spawned command]))
  /\ execute_with_confirmation e command true st
     = execute e command false st.
Proof.
  intros D. unfold execute_with_confirmation.
  destruct (is_dangerous command) as [dangerous risks] eqn:R.
  simpl in D. subst dangerous. simpl. split; [|reflexivity].
  unfold bind, input. simpl.
  destruct (stdin st) as [|[answer|] rest].
  - exists []. simpl. auto.
  - destruct (String.eqb (PyStr.lower answer) "y").
    + simpl. rewrite execute_trace. simpl trace.
      destruct (fst (validate_command command)); simpl.
      * exists [Spawned command]. rewrite <- app_assoc. auto.
      * exists []. rewrite app_nil_r. auto.
    + exists []. simpl. auto.
  - exists []. simpl. auto.
Qed.

(** The log after a run of calls that are not dry runs: the outcomes of
    the calls whose process ran to completion, in the order of the
    calls. *)
Lemma execute_all_history (commands : list string) : forall st : state,
  exists outcomes st',
    execute_all e commands st = (Ok outcomes, st') /\
    List.length outcomes = List.length commands /\
    history st'
    = history st
      ++ select (completions e (count is_spawn (trace st)) commands)
                outcomes /\
    stdin st' = stdin st.
Proof.
  induction commands as [|c cs IH]; intros st.
  - exists [], st. simpl. rewrite app_nil_r. auto.
  - cbn [execute_all completions]. unfold bind.
    destruct (fst (validate_command c)) eqn:V.
    + rewrite execute_spawned by assumption. cbv zeta.
      set (p := subprocess_run e (count is_spawn (trace st)) c).
      set (r := process_outcome c p).
      destruct (IH (logged r p (log (Spawned c) st)))
        as (outs & st' & E & L & H & I).
      rewrite E. exists (r :: outs), st'. split; [reflexivity|].
      split; [simpl; congruence|].
      rewrite H, trace_logged, count_log, I, stdin_logged. simpl.
      replace (count is_spawn (trace st) + 1) with
        (S (count is_spawn (trace st))) by lia.
      split; [|reflexivity].
      unfold logged. destruct (completed p); simpl.
      * now rewrite <- app_assoc.
      * reflexivity.
    + rewrite execute_rejected by assumption.
      destruct (IH st) as (outs & st' & E & L & H & I).
      rewrite E. eexists _, st'. split; [reflexivity|].
      split; [simpl; congruence|]. simpl. auto.
Qed.

End Gate.

Section Scenarios.

Import World Executor.
Local Open Scope list_scope.

(** C4, as the code has it: after [n] calls of [execute] that are not dry
    runs the log is the log before followed by the outcomes of those
    calls whose command was accepted and whose process ran to completion,
    in the order of the calls; rejections, timeouts and spawn failures
    are returned but not logged. *)
Theorem execute_logs_completed_processes
    (e : env) (commands : list string) (st : state) :
  exists outcomes st',
    execute_all e commands st = (Ok outcomes, st') /\
    List.length outcomes = List.length commands /\
    history st'
    = history st
      ++ select (completions e (count is_spawn (trace st)) commands)
                outcomes.
Proof.
  destruct (execute_all_history e commands st) as (outs & st' & E & L & H & _).
  exists outs, st'. auto.
Qed.

(** C4, as stated, fails: two calls that are not dry runs, the first
    rejected by the validator and the second timed out, return two
    outcomes and leave the log empty. *)
Lemma execute_all_unlogged :
  exists r1 r2 st',
    execute_all Scenario.stuck [EmptyString; "sleep 60"] (Scenario.fresh [])
    = (Ok [r1; r2], st') /\
    Result.error r1 = Some "Invalid command: Empty command"%string /\
    Result.stderr r2 = "Command timed out after 30 seconds"%string /\
    history st' = [].
Proof. do 3 eexists. vm_compute. repeat split. Qed.

(** C6, as stated, fails: the dry run of the empty command is not a
    success with exit code 0. *)
Lemma execute_dry_run_empty :
  ~ exists r,
      fst (execute Scenario.calm EmptyString true (Scenario.fresh [])) = Ok r
      /\ Result.success r = true /\ Result.returncode r = 0%Z.
Proof.
  intros (r & E & S & _). vm_compute in E. inversion E; subst r.
  discriminate S.
Qed.

Lemma execute_timeout_witness :
  fst (validate_command "sleep 60") = true /\
  subprocess_run Scenario.stuck
    (count is_spawn (trace (Scenario.fresh []))) "sleep 60" = TimeoutExpired /\
  exists r,
    execute Scenario.stuck "sleep 60" false (Scenario.fresh [])
    = (Ok r, log (Spawned "sleep 60") (Scenario.fresh [])) /\
    Result.success r = false /\
    Result.returncode r = (-1)%Z /\
    Result.stdout r = EmptyString /\
    Result.stderr r = "Command timed out after 30 seconds"%string /\
    count is_spawn (trace (log (Spawned "sleep 60") (Scenario.fresh [])))
    = S (count is_spawn (trace (Scenario.fresh []))).
Proof.
  split; [reflexivity | split; [reflexivity |]].
  apply (execute_timeout Scenario.stuck "sleep 60" (Scenario.fresh []));
    reflexivity.
Defined.

Lemma execute_with_confirmation_denied_witness :
  fst (is_dangerous "rm -rf /") = true /\
  stdin (Scenario.fresh ["no"%string]) = [Line "no"] /\
  PyStr.lower "no" <> "y"%string /\
  (execute_with_confirmation Scenario.calm "rm -rf /" false
     (Scenario.fresh ["no"%string])
   = (Ok (cancelled "rm -rf /"),
      {| history := history (Scenario.fresh ["no"%string]);
         stdin := [];
         trace := trace (Scenario.fresh ["no"%string])
                  ++ [Asked (Confirm "rm -rf /"
                               (snd (is_dangerous "rm -rf /")))] |})
   /\ Result.success (cancelled "rm -rf /") = false
   /\ Result.returncode (cancelled "rm -rf /") = (-1)%Z).
Proof.
  split; [vm_compute; reflexivity | split; [reflexivity |]].
  split; [simpl; discriminate |].
  apply (execute_with_confirmation_denied Scenario.calm "rm -rf /" "no" []
           (Scenario.fresh ["no"%string])).
  - vm_compute; reflexivity.
  - reflexivity.
  - simpl; discriminate.
Defined.

Lemma execute_with_confirmation_gate_witness :
  fst (is_dangerous "rm -rf /") = true /\
  ((exists after,
      trace (snd (execute_with_confirmation Scenario.calm "rm -rf /" false
                    (Scenario.fresh ["y"%string])))
      = trace (Scenario.fresh ["y"%string])
        ++ Asked (Confirm "rm -rf /" (snd (is_dangerous "rm -rf /")))
           :: after
      /\ (after = [] \/ after = [Spawned "rm -rf /"]))
   /\ execute_with_confirmation Scenario.calm "rm -rf /" true
        (Scenario.fresh ["y"%string])
      = execute Scenario.calm "rm -rf /" false (Scenario.fresh ["y"%string])).
Proof.
  split; [vm_compute; reflexivity |].
  apply (execute_with_confirmation_gate Scenario.calm "rm -rf /"
           (Scenario.fresh ["y"%string])).
  vm_compute; reflexivity.
Defined.

(** C1, as stated, fails: with [auto_confirm] the dangerous command
    [rm -rf /] is spawned and the prompt is never shown, from the
    executor and from [execute_command] called with [safe=True]. *)
Lemma auto_confirm_skips_gate :
  fst (is_dangerous "rm -rf /") = true /\
  trace (snd (execute_with_confirmation Scenario.calm "rm -rf /" true
                (Scenario.fresh [])))
  = [Spawned "rm -rf /"] /\
  count is_confirm
    (trace (snd (execute_with_confirmation Scenario.calm "rm -rf /" true
                   (Scenario.fresh [])))) = 0 /\
  trace (snd (Assistant.execute_command Scenario.calm 1 "rm -rf /" true
                (Scenario.fresh [])))
  = [Spawned "rm -rf /"].
Proof. vm_compute. repeat split. Qed.

End Scenarios.

(** ** The failure analyzer *)

Section Analyzer.

Import World Executor.

(** C9 at an outcome with an empty command whose error text says
    [command not found]: [command.split()[0]] raises [IndexError]. *)
Theorem suggest_fix_index_error :
  suggest_fix
    {| Result.success := false;
       Result.command := EmptyString;
       Result.error := None;
       Result.stdout := EmptyString;
       Result.stderr := "bash: command not found";
       Result.returncode := 127%Z;
       Result.is_dangerous := Some false;
       Result.risks := Some [];
       Result.dry_run := Some false |}
  = Raise IndexError.
Proof. vm_compute. reflexivity. Qed.

(** The same for every outcome whose command has no word. *)
Lemma suggest_fix_raises (r : Result.t) :
  PyStr.split (Result.command r) = [] ->
  PyStr.contains "command not found" (PyStr.lower (Result.stderr r)) = true ->
  suggest_fix r = Raise IndexError.
Proof. intros S C. unfold suggest_fix. rewrite C, S. reflexivity. Qed.

(** When the command has a word, a list of hints comes back. *)
Lemma suggest_fix_returns (r : Result.t) :
  PyStr.split (Result.command r) <> [] ->
  exists hints, suggest_fix r = Ok hints.
Proof.
  intros S. unfold suggest_fix.
  repeat match goal with
         | |- exists h, Ok _ = Ok h => eexists; reflexivity
         | |- exists h, match PyStr.split ?c with _ => _ end = _ =>
             destruct (PyStr.split c); [contradiction|]
         | |- exists h, (if ?b then _ else _) = _ => destruct b
         | |- exists h, match ?o with _ => _ end = _ => destruct o
         end.
Qed.

Example suggest_fix_module :
  suggest_fix
    (outcome "python app.py" false [] false false EmptyString
       "ModuleNotFoundError: No module named 'requests'" 1%Z)
  = Ok ["Install missing module: pip install requests"].
Proof. vm_compute. reflexivity. Qed.

End Analyzer.

(** ** The repair loop *)

Section Repair.

Import World Assistant Executor.
Local Open Scope list_scope.

Variable e : env.

Lemma count_app (f : event -> bool) (a b : list event) :
  count f (a ++ b) = count f a + count f b.
Proof. unfold count. now rewrite filter_app, length_app. Qed.

(** One call of [input]: one prompt, and a line less when it returns. *)
Lemma input_spec (p : prompt) (st : state) :
  trace (snd (input p st)) = trace st ++ [Asked p] /\
  fst (input p st) <> OutOfFuel /\
  List.length (stdin (snd (input p st))) <= List.length (stdin st) /\
  (forall text, fst (input p st) = Ok text ->
     List.length (stdin (snd (input p st))) < List.length (stdin st)).
Proof.
  unfold input, log. cbn [stdin trace history].
  destruct (stdin st) as [|[text|] rest]; simpl;
    repeat split; try discriminate; auto;
    try (intros t H; discriminate H); try lia.
Qed.

Lemma choice_loop_spec (n : nat) : forall st : state,
  (List.length (stdin st) < n -> fst (choice_loop n st) <> OutOfFuel) /\
  List.length (stdin (snd (choice_loop n st))) <= List.length (stdin st) /\
  exists evs,
    trace (snd (choice_loop n st)) = trace st ++ evs /\
    count is_query evs = 0 /\ count is_spawn evs = 0.
Proof.
  induction n as [|n IH]; intros st.
  - simpl. split; [lia|]. split; [lia|]. exists []. now rewrite app_nil_r.
  - cbn [choice_loop]. unfold bind.
    destruct (input_spec Choice st) as (T & F & L & D).
    destruct (input Choice st) as [[answer| |] st1]; simpl in *.
    + destruct (read_choice _).
      * simpl. split; [discriminate|]. split; [lia|].
        exists [Asked Choice]. auto.
      * destruct (IH st1) as (F1 & L1 & evs & T1 & Q1 & S1).
        specialize (D answer eq_refl).
        split; [intros; apply F1; lia|]. split; [lia|].
        exists (Asked Choice :: evs). rewrite T1, T, <- app_assoc.
        repeat split; assumption.
    + split; [discriminate|]. split; [lia|]. exists [Asked Choice]. auto.
    + congruence.
Qed.

Lemma failed_for_repair_rejected (command reason : string) :
  failed_for_repair (rejected command reason) = false.
Proof. reflexivity. Qed.

(** One call of [execute]: no query, and a process behind every outcome
    that is a candidate for repair. *)
Lemma execute_spec (command : string) (st : state) :
  exists r st',
    execute e command false st = (Ok r, st') /\
    stdin st' = stdin st /\
    exists evs,
      trace st' = trace st ++ evs /\
      count is_query evs = 0 /\
      count is_spawn evs <= 1 /\
      (failed_for_repair r = true -> count is_spawn evs = 1).
Proof.
  destruct (fst (validate_command command)) eqn:V.
  - rewrite execute_spawned by assumption. cbv zeta.
    eexists _, _. split; [reflexivity|].
    rewrite stdin_logged, trace_logged. split; [reflexivity|].
    exists [Spawned command]. simpl. auto.
  - rewrite execute_rejected by assumption.
    eexists _, _. split; [reflexivity|]. split; [reflexivity|].
    exists []. rewrite app_nil_r. simpl.
    repeat split; auto. discriminate.
Qed.

Lemma execute_with_confirmation_spec
    (command : string) (auto_confirm : bool) (st : state) :
  fst (execute_with_confirmation e command auto_confirm st) <> OutOfFuel /\
  List.length (stdin (snd (execute_with_confirmation e command auto_confirm st)))
  <= List.length (stdin st) /\
  exists evs,
    trace (snd (execute_with_confirmation e command auto_confirm st))
    = trace st ++ evs /\
    count is_query evs = 0 /\
    (forall r,
       fst (execute_with_confirmation e command auto_confirm st) = Ok r ->
       failed_for_repair r = true -> count is_spawn evs = 1).
Proof.
  unfold execute_with_confirmation.
  destruct (is_dangerous command) as [dangerous risks].
  destruct (dangerous && negb auto_confirm).
  - unfold bind.
    destruct (input_spec (Confirm command risks) st) as (T & F & L & D).
    destruct (input (Confirm command risks) st) as [[answer| |] st1];
      simpl in *.
    + destruct (negb (String.eqb (PyStr.lower answer) "y")).
      * simpl. split; [discriminate|]. split; [lia|].
        exists [Asked (Confirm command risks)].
        repeat split; auto. intros r E. inversion E; subst r. discriminate.
      * destruct (execute_spec command st1)
          as (r & st' & E & I & evs & T1 & Q & S1 & S2).
        rewrite E. simpl. split; [discriminate|]. rewrite I.
        split; [lia|].
        exists (Asked (Confirm command risks) :: evs).
        rewrite T1, T, <- app_assoc. repeat split; auto.
        intros r' E'. inversion E'; subst r'. exact S2.
    + split; [discriminate|]. split; [lia|].
      exists [Asked (Confirm command risks)].
      repeat split; auto. discriminate.
    + congruence.
  - destruct (execute_spec command st)
      as (r & st' & E & I & evs & T1 & Q & S1 & S2).
    rewrite E. simpl. split; [discriminate|]. rewrite I. split; [lia|].
    exists evs. repeat split; auto.
    intros r' E'. inversion E'; subst r'. exact S2.
Qed.

Ltac trace_done :=
  eexists; split;
  [ repeat match goal with H : trace _ = _ |- _ => rewrite H; clear H end;
    cbn [trace log]; repeat rewrite <- app_assoc; reflexivity
  | unfold count in *; repeat rewrite filter_app; repeat rewrite length_app;
    simpl; lia ].

Ltac leaf E :=
  inversion E; subst; clear E;
  split; [discriminate | split; [lia | trace_done]].

(** [execute_command]: with more fuel than there are lines it does not
    run out of fuel, it only consumes lines, and its queries are at most
    as many as its processes. *)
Lemma execute_command_spec (fuel : nat) :
  forall (command : string) (safe : bool) (st : state) res st',
    execute_command e fuel command safe st = (res, st') ->
    (List.length (stdin st) < fuel -> res <> OutOfFuel) /\
    List.length (stdin st') <= List.length (stdin st) /\
    exists evs,
      trace st' = trace st ++ evs /\
      count is_query evs <= count is_spawn evs.
Proof.
  induction fuel as [|fuel IH]; intros command safe st res st' E.
  { inversion E; subst. split; [lia|]. split; [lia|].
    exists []. now rewrite app_nil_r. }
  cbn [execute_command] in E. unfold bind at 1 in E.
  destruct (execute_with_confirmation_spec command safe st)
    as (F & L & evs & T & Q & S1).
  destruct (execute_with_confirmation e command safe st) as [[r|ex|] st1];
    simpl in F, L, T, S1; [| |congruence].
  2:{ leaf E. }
  destruct (failed_for_repair r) eqn:FR.
  2:{ leaf E. }
  specialize (S1 r eq_refl FR).
  unfold except_interrupt in E. unfold bind at 1 in E.
  destruct (input_spec HelpOffer st1) as (T1 & F1 & L1 & D1).
  destruct (input HelpOffer st1) as [[answer|ex|] st2];
    simpl in T1, F1, L1, D1; [| |congruence].
  2:{ destruct ex; leaf E. }
  specialize (D1 answer eq_refl).
  destruct (one_of _ _).
  2:{ leaf E. }
  unfold get_command_suggestion, suggest, get_user_choice in E.
  unfold bind at 1 in E.
  set (q := get_error_fix_prompt _ _ _ _) in E.
  set (st3 := log (Suggested q) st2) in E.
  assert (T2 : trace st3 = trace st2 ++ [Suggested q]) by reflexivity.
  assert (L2 : stdin st3 = stdin st2) by reflexivity.
  unfold bind at 1 in E.
  destruct (choice_loop_spec (S (List.length (stdin st3))) st3)
    as (F3 & L3 & evs3 & T3 & Q3 & S3).
  specialize (F3 (Nat.lt_succ_diag_r _)).
  destruct (choice_loop (S (List.length (stdin st3))) st3) as [[c|ex|] st4];
    simpl in F3, L3, T3; [| |congruence]; try rewrite L2 in L3.
  2:{ destruct ex; leaf E. }
  destruct c; try (leaf E).
  destruct (execute_command e fuel
              (s_command (provider e (count is_query (trace st2)) q))
              false st4) as [res5 st5] eqn:E5.
  destruct (IH _ _ _ _ _ E5) as (F5 & L5 & evs5 & T5 & Q5).
  destruct res5 as [b|ex|].
  - leaf E.
  - destruct ex; leaf E.
  - inversion E; subst; clear E.
    split; [intros; apply F5; lia|]. split; [lia|]. trace_done.
Qed.

(** C2, as the code has it: a top-level call of [execute_command]
    returns or raises, and queries the provider at most once for each
    process it spawns; the repaired command goes through
    [execute_command] again, so a repair that fails can be repaired in
    turn. *)
Theorem execute_command_queries_bounded_by_processes
    (command : string) (safe : bool) (st : state) :
  fst (run_execute_command e command safe st) <> OutOfFuel /\
  exists evs,
    trace (snd (run_execute_command e command safe st)) = trace st ++ evs /\
    count is_query evs <= count is_spawn evs.
Proof.
  unfold run_execute_command.
  destruct (execute_command e (S (List.length (stdin st))) command safe st)
    as [res st'] eqn:E.
  destruct (execute_command_spec _ _ _ _ _ _ E) as (F & _ & H).
  split; [apply F; lia | exact H].
Qed.

End Repair.

Section RepairScenario.

Import World Assistant Executor.
Local Open Scope list_scope.

(** C2, as stated, fails: the command fails with exit code 1, the user
    accepts help and the fix, the fix fails too, the user accepts help and
    the fix again: the provider is asked twice in one top-level call. *)
Lemma execute_command_repairs_twice :
  exists q1 q2 st',
    run_execute_command Scenario.failing "make" false
      (Scenario.fresh ["y"; "y"; "y"; "y"; "n"]%string)
    = (Ok false, st') /\
    trace st'
    = [ Spawned "make"; Asked HelpOffer; Suggested q1; Asked Choice;
        Spawned "make"; Asked HelpOffer; Suggested q2; Asked Choice;
        Spawned "make"; Asked HelpOffer ] /\
    count is_query (trace st') = 2.
Proof. do 3 eexists. vm_compute. repeat split. Qed.

End RepairScenario.

(** ** Cleaning a command *)

Section Strings.

Lemma append_nil_r (s : string) : s ++ EmptyString = s.
Proof. induction s as [|c s IH]; simpl; [reflexivity | now rewrite IH]. Qed.

Lemma append_assoc (a b c : string) : (a ++ b) ++ c = a ++ (b ++ c).
Proof. induction a as [|x a IH]; simpl; [reflexivity | now rewrite IH]. Qed.

Lemma prefix_nil (s : string) : prefix EmptyString s = true.
Proof. destruct s; reflexivity. Qed.

Lemma prefix_cons (x y : ascii) (p s : string) :
  prefix (String x p) (String y s) = true <-> x = y /\ prefix p s = true.
Proof.
  simpl. destruct (ascii_dec x y) as [E|N].
  - split; [auto | tauto].
  - split; [discriminate | tauto].
Qed.

Lemma prefix_append (p t : string) : prefix p (p ++ t) = true.
Proof.
  induction p as [|x p IH]; simpl; [apply prefix_nil|].
  destruct (ascii_dec x x); [assumption | congruence].
Qed.

Lemma prefix_drop (p s : string) :
  prefix p s = true -> s = p ++ PyStr.drop (String.length p) s.
Proof.
  revert s. induction p as [|x p IH]; intros s H; [reflexivity|].
  destruct s as [|y s]; [discriminate|].
  apply prefix_cons in H. destruct H as [-> H]. simpl. f_equal. auto.
Qed.

Lemma length_append (a b : string) :
  String.length (a ++ b) = String.length a + String.length b.
Proof. induction a as [|x a IH]; simpl; [reflexivity | now rewrite IH]. Qed.

Lemma drop_append (a b : string) : PyStr.drop (String.length a) (a ++ b) = b.
Proof. induction a as [|x a IH]; simpl; [now destruct b | assumption]. Qed.

(** A prefix of [r ++ x] is a prefix of [r], or goes on after [r]. *)
Lemma prefix_append_cases (p r x : string) :
  prefix p (r ++ x) = true ->
  prefix p r = true \/ prefix r p = true.
Proof.
  revert p. induction r as [|y r IH]; intros p H.
  - right. apply prefix_nil.
  - destruct p as [|z p]; [left; reflexivity|].
    simpl append in H. apply prefix_cons in H. destruct H as [-> H].
    destruct (IH p H) as [H1|H1]; [left | right];
      apply prefix_cons; auto.
Qed.

Lemma contains_cons_false (p : string) (c : ascii) (s : string) :
  PyStr.contains p (String c s) = false -> PyStr.contains p s = false.
Proof. simpl. intros H. apply orb_false_iff in H. tauto. Qed.

Lemma contains_not_prefix (p s : string) :
  PyStr.contains p s = false -> prefix p s = false.
Proof.
  destruct s; cbn [PyStr.contains]; intros H; apply orb_false_iff in H; tauto.
Qed.

Lemma contains_append_false (p a b : string) :
  PyStr.contains p (a ++ b) = false -> PyStr.contains p b = false.
Proof.
  induction a as [|x a IH]; simpl append; intros H; [assumption|].
  apply IH. eapply contains_cons_false; eassumption.
Qed.

(** An occurrence of [p] in [r ++ x] is in [x] or starts in [r]. *)
Lemma contains_append_cases (p r x : string) :
  PyStr.contains p (r ++ x) = true ->
  PyStr.contains p x = true \/
  exists r', In r' (Text.suffixes r) /\ prefix p (r' ++ x) = true.
Proof.
  induction r as [|y r IH]; simpl append; intros H; [left; assumption|].
  cbn [PyStr.contains] in H. apply orb_true_iff in H. destruct H as [H|H].
  - right. exists (String y r). split; [left; reflexivity | assumption].
  - destruct (IH H) as [H1|(r' & I & H1)]; [left; assumption|].
    right. exists r'. split; [right; assumption | assumption].
Qed.

End Strings.

Section Replace.

Variables old new : string.

Lemma replace_from_skip (k : nat) (s : string) :
  PyStr.replace_from old new k s
  = PyStr.replace_from old new 0 (PyStr.drop k s).
Proof.
  revert k. induction s as [|c s IH]; intros k.
  - destruct k; reflexivity.
  - destruct k as [|k]; [reflexivity|]. simpl PyStr.drop.
    cbn [PyStr.replace_from]. apply IH.
Qed.

Lemma replace_from_nil : PyStr.replace_from old new 0 EmptyString = EmptyString.
Proof. reflexivity. Qed.

(** At a place where [old] does not start, the character is kept. *)
Lemma replace_from_keep (c : ascii) (s : string) :
  prefix old (String c s) = false ->
  PyStr.replace_from old new 0 (String c s)
  = String c (PyStr.replace_from old new 0 s).
Proof. intros H. cbn [PyStr.replace_from]. rewrite H. reflexivity. Qed.

(** At a place where [old] starts, [new] is written and the scan goes on
    after [old]. *)
Lemma replace_from_hit (s : string) :
  old <> EmptyString ->
  prefix old s = true ->
  PyStr.replace_from old new 0 s
  = new ++ PyStr.replace_from old new 0 (PyStr.drop (String.length old) s).
Proof.
  intros N H. destruct s as [|c s].
  - destruct old; [congruence | discriminate].
  - cbn [PyStr.replace_from]. rewrite H. f_equal.
    rewrite replace_from_skip. f_equal.
    destruct old as [|x o]; [congruence|]. simpl. now rewrite Nat.sub_0_r.
Qed.

Lemma drop_shorter (s : string) :
  old <> EmptyString ->
  prefix old s = true ->
  String.length (PyStr.drop (String.length old) s) < String.length s.
Proof.
  intros N H. rewrite (prefix_drop _ _ H) at 2. rewrite length_append.
  destruct old; [congruence | simpl; lia].
Qed.

(** A text without [old] is left as it is. *)
Lemma replace_from_absent (s : string) :
  PyStr.contains old s = false -> PyStr.replace_from old new 0 s = s.
Proof.
  induction s as [|c s IH]; intros H; [reflexivity|].
  rewrite replace_from_keep by (apply contains_not_prefix; assumption).
  f_equal. apply IH. eapply contains_cons_false; eassumption.
Qed.

End Replace.

Section Occurrences.

Variables old new p : string.

Hypothesis old_not_empty : old <> EmptyString.

Lemma suffixes_contains (r r' : string) :
  In r' (Text.suffixes r) -> prefix p r' = true ->
  PyStr.contains p r = true.
Proof.
  induction r as [|y r IH]; intros I H; [destruct I|].
  cbn [PyStr.contains]. apply orb_true_iff. destruct I as [<-|I]; auto.
Qed.

(** When no end of [q] starts like [new], a [q] at the head of the
    replaced text was at the head of the text. *)
Lemma prefix_replace_from (q : string) :
  Text.unlike new q = true ->
  forall s,
    prefix q (PyStr.replace_from old new 0 s) = true -> prefix q s = true.
Proof.
  unfold Text.unlike.
  induction q as [|x q IH]; intros U s H; [apply prefix_nil|].
  cbn [Text.suffixes forallb] in U. apply andb_true_iff in U.
  destruct U as [U1 U2]. apply andb_true_iff in U1. destruct U1 as [Ua Ub].
  apply negb_true_iff in Ua, Ub.
  destruct s as [|c s]; [discriminate H|].
  destruct (prefix old (String c s)) eqn:M.
  - rewrite replace_from_hit in H by assumption.
    apply prefix_append_cases in H. destruct H; congruence.
  - rewrite replace_from_keep in H by assumption.
    apply prefix_cons in H. destruct H as [-> H].
    apply prefix_cons. split; [reflexivity | apply IH; assumption].
Qed.

Hypothesis new_apart : Text.apart new p = true.

Lemma apart_not_empty : p <> EmptyString.
Proof.
  intros ->. unfold Text.apart in new_apart.
  destruct new; discriminate new_apart.
Qed.

(** After the replacement [p] is nowhere in the text, when [p] is [old]
    itself or was nowhere before. *)
Lemma replace_from_removes (n : nat) : forall s : string,
  String.length s <= n ->
  p = old \/ PyStr.contains p s = false ->
  PyStr.contains p (PyStr.replace_from old new 0 s) = false.
Proof.
  pose proof new_apart as A. unfold Text.apart in A.
  apply andb_true_iff in A. destruct A as [A Ac].
  apply andb_true_iff in A. destruct A as [Aa Ab].
  apply negb_true_iff in Ab.
  induction n as [|n IH]; intros s L H.
  { destruct s; [|simpl in L; lia].
    pose proof apart_not_empty. destruct p; [congruence | reflexivity]. }
  destruct s as [|c s].
  { pose proof apart_not_empty. destruct p; [congruence | reflexivity]. }
  destruct (prefix old (String c s)) eqn:M.
  - rewrite replace_from_hit by assumption.
    set (t := PyStr.drop (String.length old) (String c s)).
    assert (X : PyStr.contains p (PyStr.replace_from old new 0 t) = false).
    { apply IH.
      - pose proof (drop_shorter old (String c s) old_not_empty M).
        fold t in H0. simpl in L, H0. lia.
      - destruct H as [H|H]; [left; assumption | right].
        rewrite (prefix_drop _ _ M) in H. fold t in H.
        eapply contains_append_false; eassumption. }
    destruct (PyStr.contains p (new ++ _)) eqn:C; [|reflexivity].
    apply contains_append_cases in C. destruct C as [C|(r' & I & C)].
    + congruence.
    + apply prefix_append_cases in C. destruct C as [C|C].
      * rewrite (suffixes_contains new r' I C) in Ab. discriminate.
      * rewrite forallb_forall in Ac. specialize (Ac r' I).
        rewrite C in Ac. discriminate.
  - assert (K : prefix p (PyStr.replace_from old new 0 (String c s)) = false).
    { destruct (prefix p (PyStr.replace_from old new 0 (String c s))) eqn:K;
        [|reflexivity].
      apply prefix_replace_from in K; [|assumption].
      destruct H as [->|H]; [congruence|].
      apply contains_not_prefix in H. congruence. }
    rewrite replace_from_keep in K |- * by assumption.
    cbn [PyStr.contains]. apply orb_false_iff. split; [assumption|].
    apply IH; [simpl in L; lia|].
    destruct H as [H|H]; [left; assumption | right].
    eapply contains_cons_false; eassumption.
Qed.

End Occurrences.

Section Tidy.

Import Text.

Lemma tidy_from_append (r y : string) : forall b : bool,
  tidy_from b r = true -> r <> EmptyString ->
  tidy_from b (r ++ y) = tidy_from false y.
Proof.
  induction r as [|c r IH]; intros b H N; [congruence|].
  simpl in *. destruct (PyStr.isspace c).
  - apply andb_true_iff in H. destruct H as [H1 H2]. rewrite H1. simpl.
    apply IH; [assumption|]. intros ->. discriminate H2.
  - destruct r as [|d r]; [reflexivity|]. apply IH; [assumption | discriminate].
Qed.

(** A tidy text that is not empty reads the same after anything. *)
Lemma tidy_from_any (r y : string) (b : bool) :
  tidy_from true r = true ->
  tidy_from b (r ++ y) = tidy_from false y.
Proof.
  intros H. destruct r as [|c r]; [discriminate H|].
  simpl in *. destruct (PyStr.isspace c).
  - rewrite andb_false_r in H. discriminate H.
  - destruct r as [|d r]; [reflexivity|].
    apply tidy_from_append; [assumption | discriminate].
Qed.

Lemma tidy_from_not_empty (r : string) :
  tidy_from true r = true -> r <> EmptyString.
Proof. intros H ->. discriminate H. Qed.

Lemma no_space_tidy (x : string) :
  no_space x = true -> tidy_from false x = true.
Proof.
  induction x as [|c x IH]; simpl; intros H; [reflexivity|].
  apply andb_true_iff in H. destruct H as [H1 H2].
  apply negb_true_iff in H1. rewrite H1. auto.
Qed.

Lemma word_tidy (x : string) : word x = true -> tidy_from true x = true.
Proof.
  unfold word. destruct x as [|c x]; [discriminate|]. simpl. intros H.
  apply andb_true_iff in H. destruct H as [H1 H2].
  apply negb_true_iff in H1. rewrite H1. now apply no_space_tidy.
Qed.

(** The words of [split] have no whitespace and are not empty. *)
Lemma split_words_shape (s : string) :
  no_space (fst (PyStr.split_words s)) = true /\
  Forall (fun w => word w = true) (snd (PyStr.split_words s)).
Proof.
  induction s as [|c s IH]; simpl; [auto|].
  destruct (PyStr.split_words s) as [t ts]. simpl in IH.
  destruct IH as [Ht Hts]. destruct (PyStr.isspace c) eqn:C; simpl.
  - split; [reflexivity|]. unfold PyStr.push.
    destruct t as [|d t]; simpl; [assumption|].
    constructor; assumption.
  - rewrite C. simpl. auto.
Qed.

Lemma join_rest (t : string) (ts : list string) :
  PyStr.join " " (t :: ts) = t ++ rest ts.
Proof.
  destruct ts as [|x ts]; simpl; [now rewrite append_nil_r | reflexivity].
Qed.

Lemma tidy_join (ws : list string) :
  Forall (fun w => word w = true) ws -> ws <> [] ->
  tidy_from true (PyStr.join " " ws) = true.
Proof.
  induction 1 as [|w ws Hw Hws IH]; intros N; [congruence|].
  rewrite join_rest. rewrite tidy_from_any by (apply word_tidy; assumption).
  destruct ws as [|x ws]; [reflexivity|].
  unfold rest. simpl append. simpl tidy_from. apply IH. discriminate.
Qed.

(** What the first two steps of [clean_command] return is tidy. *)
Lemma tidy_join_split (s : string) :
  tidy (PyStr.join " " (PyStr.split s)) = true.
Proof.
  unfold PyStr.split. destruct (split_words_shape s) as [Ht Hts].
  destruct (PyStr.split_words s) as [t ts]. simpl in Ht, Hts.
  unfold tidy, PyStr.push. destruct t as [|c t]; simpl PyStr.is_empty; cbv iota.
  - destruct ts as [|x ts]; [reflexivity|].
    rewrite tidy_join; [apply orb_true_r | assumption | discriminate].
  - rewrite tidy_join; [apply orb_true_r | | discriminate].
    constructor; assumption.
Qed.

(** A tidy text is the words of [split] with single spaces between. *)
Lemma tidy_from_split (s : string) : forall b : bool,
  tidy_from b s = true ->
  s = fst (PyStr.split_words s) ++ rest (snd (PyStr.split_words s)) /\
  (b = true -> fst (PyStr.split_words s) <> EmptyString).
Proof.
  induction s as [|c s IH]; intros b H.
  - simpl in *. split; [reflexivity|]. intros ->. discriminate H.
  - simpl in H. cbn [PyStr.split_words].
    destruct (PyStr.split_words s) as [t ts]. simpl in IH.
    destruct (PyStr.isspace c).
    + apply andb_true_iff in H. destruct H as [H1 H2].
      apply andb_true_iff in H1. destruct H1 as [Hc Hb].
      apply Ascii.eqb_eq in Hc. subst c.
      destruct (IH true H2) as [E Ne]. specialize (Ne eq_refl).
      simpl. unfold PyStr.push. destruct t as [|d t]; [congruence|].
      simpl PyStr.is_empty. cbv iota. split.
      * unfold rest at 1. rewrite join_rest. simpl append. f_equal.
        exact E.
      * intros ->. discriminate Hb.
    + destruct (IH false H) as [E _]. simpl. split.
      * f_equal. exact E.
      * discriminate.
Qed.

Lemma tidy_split (s : string) :
  tidy s = true -> PyStr.join " " (PyStr.split s) = s.
Proof.
  unfold tidy. destruct s as [|c s]; [reflexivity|]. simpl orb. intros H.
  destruct (tidy_from_split (String c s) true H) as [E Ne].
  specialize (Ne eq_refl).
  unfold PyStr.split. destruct (PyStr.split_words (String c s)) as [t ts].
  simpl in E, Ne. unfold PyStr.push.
  destruct t as [|d t]; [congruence|]. simpl PyStr.is_empty. cbv iota.
  rewrite join_rest. symmetry. exact E.
Qed.

Lemma tidy_from_rstrip (s : string) : forall b : bool,
  tidy_from b s = true -> s <> EmptyString -> PyStr.rstrip s = s.
Proof.
  induction s as [|c s IH]; intros b H N; [congruence|].
  simpl in H. cbn [PyStr.rstrip]. destruct s as [|d s].
  - simpl. destruct (PyStr.isspace c); [|reflexivity].
    simpl in H. rewrite andb_false_r in H. discriminate H.
  - assert (R : PyStr.rstrip (String d s) = String d s).
    { destruct (PyStr.isspace c).
      - apply andb_true_iff in H. destruct H as [_ H].
        apply (IH true); [assumption | discriminate].
      - apply (IH false); [assumption | discriminate]. }
    rewrite R. reflexivity.
Qed.

Lemma tidy_strip (s : string) : tidy s = true -> PyStr.strip s = s.
Proof.
  unfold tidy, PyStr.strip. destruct s as [|c s]; [reflexivity|].
  simpl orb. intros H. assert (L : PyStr.lstrip (String c s) = String c s).
  { simpl in *. destruct (PyStr.isspace c); [|reflexivity].
    rewrite andb_false_r in H. discriminate H. }
  rewrite L. apply (tidy_from_rstrip _ true); [assumption | discriminate].
Qed.

(** Replacing a tidy text by a tidy text keeps a text tidy. *)
Lemma tidy_from_replace (old new : string) :
  tidy_from true old = true -> tidy_from true new = true ->
  forall (n : nat) (s : string), String.length s <= n ->
  forall b : bool,
    tidy_from b (PyStr.replace_from old new 0 s) = tidy_from b s.
Proof.
  intros Ho Hn. pose proof (tidy_from_not_empty _ Ho) as N.
  induction n as [|n IH]; intros s L b.
  { destruct s; [reflexivity | simpl in L; lia]. }
  destruct s as [|c s]; [reflexivity|].
  destruct (prefix old (String c s)) eqn:M.
  - rewrite replace_from_hit by assumption.
    pose proof (drop_shorter old _ N M) as D.
    rewrite (prefix_drop _ _ M) at 2.
    rewrite !tidy_from_any by assumption.
    apply IH. simpl in L, D. lia.
  - rewrite replace_from_keep by assumption. simpl in *.
    rewrite !IH by lia. reflexivity.
Qed.

Lemma tidy_replace (old new s : string) :
  tidy_from true old = true -> tidy_from true new = true ->
  tidy s = true -> tidy (PyStr.replace old new s) = true.
Proof.
  intros Ho Hn H. unfold PyStr.replace.
  destruct old as [|x o]; [discriminate Ho|]. simpl PyStr.is_empty. cbv iota.
  unfold tidy in *. destruct s as [|c s]; [reflexivity|].
  change (tidy_from true (String c s) = true) in H.
  rewrite (tidy_from_replace _ _ Ho Hn _ _ (le_n _)), H. apply orb_true_r.
Qed.

End Tidy.

Section Clean.

Import Text.

Lemma replace_removes (old new p s : string) :
  tidy_from true old = true ->
  apart new p = true ->
  p = old \/ PyStr.contains p s = false ->
  PyStr.contains p (PyStr.replace old new s) = false.
Proof.
  intros Ho A H. pose proof (tidy_from_not_empty _ Ho) as N.
  unfold PyStr.replace. destruct old as [|x o]; [congruence|].
  simpl PyStr.is_empty. cbv iota.
  apply (replace_from_removes _ new p N A (String.length s) s (le_n _) H).
Qed.

(** After the loop over the table the text is tidy and has none of the
    typos of the table, nor any of those it had not before. *)
Lemma correct_all_spec (l : list (string * string)) :
  forall (before : list string) (s : string),
    forallb tidy_pair l = true ->
    corrections_apart before l = true ->
    tidy s = true ->
    (forall p, In p before -> PyStr.contains p s = false) ->
    tidy (correct_all l s) = true /\
    forall p, In p (map fst l) \/ In p before ->
              PyStr.contains p (correct_all l s) = false.
Proof.
  induction l as [|[t c] l IH]; intros before s W A T B.
  - simpl. split; [assumption|]. intros p [[]|I]. auto.
  - cbn [forallb tidy_pair] in W. apply andb_true_iff in W.
    destruct W as [W1 W]. apply andb_true_iff in W1. destruct W1 as [Wt Wc].
    cbn [corrections_apart] in A. apply andb_true_iff in A.
    destruct A as [A1 A]. rewrite forallb_forall in A1.
    change (correct_all ((t, c) :: l) s)
      with (correct_all l (PyStr.replace t c s)).
    destruct (IH (t :: before) (PyStr.replace t c s) W A) as [T' B'].
    + apply tidy_replace; assumption.
    + intros p I. apply replace_removes; [assumption | auto |].
      destruct I as [<-|I]; [left; reflexivity | right; auto].
    + split; [assumption|]. intros p I. apply B'.
      simpl in I |- *. tauto.
Qed.

(** A text with none of the typos goes through the loop unchanged. *)
Lemma correct_all_absent (l : list (string * string)) (s : string) :
  (forall p, In p (map fst l) -> PyStr.contains p s = false) ->
  forallb tidy_pair l = true ->
  correct_all l s = s.
Proof.
  induction l as [|[t c] l IH]; intros B W; [reflexivity|].
  cbn [forallb tidy_pair] in W. apply andb_true_iff in W.
  destruct W as [W1 W]. apply andb_true_iff in W1. destruct W1 as [Wt _].
  change (correct_all ((t, c) :: l) s)
    with (correct_all l (PyStr.replace t c s)).
  assert (E : PyStr.replace t c s = s).
  { unfold PyStr.replace. destruct t as [|x t]; [discriminate Wt|].
    apply replace_from_absent. apply B. left. reflexivity. }
  rewrite E. apply IH; [|assumption].
  intros p I. apply B. right. assumption.
Qed.

(** Cleaning with a well-formed table of corrections is idempotent. *)
Lemma clean_with_idempotent (l : list (string * string)) (c : string) :
  well_formed l = true ->
  let clean c := correct_all l (PyStr.join " " (PyStr.split (PyStr.strip c))) in
  clean (clean c) = clean c.
Proof.
  intros W clean. unfold well_formed in W. apply andb_true_iff in W.
  destruct W as [W A].
  destruct (correct_all_spec l [] _ W A (tidy_join_split (PyStr.strip c)))
    as [T B]; [intros p []|].
  fold (clean c) in T, B. unfold clean at 1.
  rewrite (tidy_strip _ T), (tidy_split _ T).
  apply correct_all_absent; [|assumption]. intros p I. apply B. auto.
Qed.

Lemma replacements_well_formed :
  well_formed Executor.replacements = true.
Proof. vm_compute. reflexivity. Qed.

(** C10: [clean_command] is idempotent. *)
Theorem clean_command_idempotent (command : string) :
  Executor.clean_command (Executor.clean_command command)
  = Executor.clean_command command.
Proof.
  exact (clean_with_idempotent Executor.replacements command
           replacements_well_formed).
Qed.

Example clean_command_typos :
  Executor.clean_command "  cd..   ls-la  rm-rf   x " = "cd .. ls -la rm -rf x".
Proof. vm_compute. reflexivity. Qed.

End Clean.

(** ** The shape of the traces *)

Section Shapes.

Import World Assistant Executor Trace.
Local Open Scope list_scope.

Variable e : env.

Lemma input_history (p : prompt) (st : state) :
  history (snd (input p st)) = history st.
Proof.
  unfold input, log. cbn [stdin trace history].
  destruct (stdin st) as [|[text|] rest]; reflexivity.
Qed.

(** The loop of [get_user_choice] only asks for the choice. *)
Lemma choice_loop_asks (n : nat) : forall st : state,
  history (snd (choice_loop n st)) = history st /\
  exists k, trace (snd (choice_loop n st)) = trace st ++ repeat (Asked Choice) k.
Proof.
  induction n as [|n IH]; intros st.
  - simpl. split; [reflexivity|]. exists 0. simpl. now rewrite app_nil_r.
  - cbn [choice_loop]. unfold bind.
    pose proof (input_history Choice st) as Hh.
    destruct (input_spec Choice st) as (T & _).
    destruct (input Choice st) as [[answer| |] st1]; simpl in *.
    + destruct (read_choice _).
      * simpl. split; [assumption|]. exists 1. assumption.
      * destruct (IH st1) as (H1 & k & T1). split; [congruence|].
        exists (S k). rewrite T1, T, <- app_assoc. reflexivity.
    + split; [assumption|]. exists 1. assumption.
    + split; [assumption|]. exists 1. assumption.
Qed.

(** One call of [execute]: what it spawns and what it logs. *)
Lemma execute_detail (command : string) (st : state) :
  exists r st',
    execute e command false st = (Ok r, st') /\
    stdin st' = stdin st /\
    ((fst (validate_command command) = false /\ st' = st /\
      Result.success r = false /\ failed_for_repair r = false)
     \/
     (fst (validate_command command) = true /\
      trace st' = trace st ++ [Spawned command] /\
      ((history st' = history st ++ [r] /\ logged_ok r = true)
       \/
       (history st' = history st /\
        Result.success r = false /\ failed_for_repair r = false)))).
Proof.
  destruct (fst (validate_command command)) eqn:V.
  - rewrite execute_spawned by assumption. cbv zeta.
    eexists _, _. split; [reflexivity|].
    rewrite stdin_logged, trace_logged. split; [reflexivity|].
    right. split; [reflexivity|]. split; [reflexivity|].
    unfold logged, process_outcome.
    destruct (subprocess_run e (count is_spawn (trace st)) command);
      simpl; [left | right; auto | right; auto].
    split; [reflexivity|]. unfold logged_ok. simpl.
    rewrite V, Bool.eqb_reflx. reflexivity.
  - rewrite execute_rejected by assumption.
    eexists _, _. split; [reflexivity|]. split; [reflexivity|].
    left. auto.
Qed.

(** One call of [execute_with_confirmation]: its events are an attempt,
    and what it logs is the outcome of a completed process. *)
Lemma execute_with_confirmation_detail
    (command : string) (auto : bool) (st : state) res st' :
  execute_with_confirmation e command auto st = (res, st') ->
  exists evs hs,
    trace st' = trace st ++ evs /\ attempt command auto evs /\
    history st' = history st ++ hs /\
    Forall (fun r => logged_ok r = true) hs /\
    (forall r, res = Ok r -> Result.success r = true -> hs = [r]) /\
    (forall r, res = Ok r -> failed_for_repair r = true -> hs = [r]).
Proof.
  unfold execute_with_confirmation.
  destruct (is_dangerous command) as [dangerous risks] eqn:D.
  assert (Dd : fst (is_dangerous command) = dangerous) by now rewrite D.
  destruct (dangerous && negb auto) eqn:G.
  - unfold bind. pose proof (input_history (Confirm command risks) st) as Hh.
    destruct (input_spec (Confirm command risks) st) as (T & F & _).
    destruct (input (Confirm command risks) st) as [[answer| |] st1];
      simpl in *; [| |congruence].
    + destruct (negb (String.eqb (PyStr.lower answer) "y")).
      * intros E. inversion E; subst; clear E.
        exists [Asked (Confirm command risks)], [].
        rewrite app_nil_r. repeat split; auto using attempt_asked;
          intros r E; inversion E; subst; discriminate.
      * destruct (execute_detail command st1)
          as (r & st2 & E & _ & [(V & -> & S1 & S2)|(V & T2 & H2)]);
          rewrite E; intros E'; inversion E'; subst; clear E'.
        -- exists [Asked (Confirm command risks)], [].
           rewrite app_nil_r. repeat split; auto using attempt_asked;
             intros r' E'; inversion E'; subst; congruence.
        -- exists [Asked (Confirm command risks); Spawned command].
           destruct H2 as [(H2 & Lr)|(H2 & S1 & S2)].
           ++ exists [r]. rewrite T2, T, <- app_assoc, H2, Hh.
              repeat split; auto using attempt_confirmed;
                intros r' E'; inversion E'; subst; reflexivity.
           ++ exists []. rewrite T2, T, <- app_assoc, H2, Hh, app_nil_r.
              repeat split; auto using attempt_confirmed;
                intros r' E'; inversion E'; subst; congruence.
    + intros E. inversion E; subst; clear E.
      exists [Asked (Confirm command risks)], [].
      rewrite app_nil_r. repeat split; auto using attempt_asked;
        intros r E; discriminate E.
  - assert (A : fst (is_dangerous command) = false \/ auto = true).
    { rewrite Dd. destruct dangerous; [right | left; reflexivity].
      destruct auto; [reflexivity | discriminate G]. }
    destruct (execute_detail command st)
      as (r & st2 & E & _ & [(V & -> & S1 & S2)|(V & T2 & H2)]);
      rewrite E; intros E'; inversion E'; subst; clear E'.
    + exists [], []. rewrite !app_nil_r.
      repeat split; auto using attempt_nothing;
        intros r' E'; inversion E'; subst; congruence.
    + exists [Spawned command].
      destruct H2 as [(H2 & Lr)|(H2 & S1 & S2)].
      * exists [r]. repeat split; auto using attempt_spawn;
          intros r' E'; inversion E'; subst; reflexivity.
      * exists []. rewrite app_nil_r.
        repeat split; auto using attempt_spawn;
          intros r' E'; inversion E'; subst; congruence.
Qed.

Lemma failed_for_repair_failed (r : Result.t) :
  failed_for_repair r = true -> Result.success r = false.
Proof.
  unfold failed_for_repair. intros H. apply andb_true_iff in H.
  destruct H as [H _]. now apply negb_true_iff in H.
Qed.

Ltac traces :=
  repeat match goal with
         | H : trace _ = _ |- _ => rewrite H; clear H
         | H : history _ = _ |- _ => rewrite H; clear H
         end;
  cbn [trace history log]; repeat rewrite <- app_assoc;
  rewrite ?app_nil_r; reflexivity.

(** One call of [execute_command]: its events are a run, what it logs
    are outcomes of completed processes, and it answers [True] only when
    the last of them is a success. *)
Lemma execute_command_detail (fuel : nat) :
  forall (command : string) (safe : bool) (st : state) res st',
    execute_command e fuel command safe st = (res, st') ->
    exists evs hs,
      trace st' = trace st ++ evs /\ run command safe evs /\
      history st' = history st ++ hs /\
      Forall (fun r => logged_ok r = true) hs /\
      (res = Ok true ->
       exists hs' r, hs = hs' ++ [r] /\ Result.success r = true).
Proof.
  induction fuel as [|fuel IH]; intros command safe st res st' E.
  { inversion E; subst. exists [], []. rewrite !app_nil_r.
    repeat split; auto using run_attempt, attempt_nothing. discriminate. }
  cbn [execute_command] in E. unfold bind at 1 in E.
  destruct (execute_with_confirmation e command safe st) as [res1 st1] eqn:E1.
  destruct (execute_with_confirmation_detail _ _ _ _ _ E1)
    as (evs1 & hs1 & T1 & A1 & H1 & F1 & S1 & _).
  destruct res1 as [r|ex|].
  2:{ inversion E; subst; clear E. exists evs1, hs1.
      repeat split; auto using run_attempt. discriminate. }
  2:{ inversion E; subst; clear E. exists evs1, hs1.
      repeat split; auto using run_attempt. discriminate. }
  destruct (failed_for_repair r) eqn:FR.
  2:{ inversion E; subst; clear E. exists evs1, hs1.
      repeat split; auto using run_attempt.
      intros Et. exists [], r. inversion Et as [Es]. rewrite Es.
      split; [apply (S1 r eq_refl Es) | reflexivity]. }
  pose proof (failed_for_repair_failed r FR) as Sr.
  unfold except_interrupt in E. unfold bind at 1 in E.
  pose proof (input_history HelpOffer st1) as Hh2.
  destruct (input_spec HelpOffer st1) as (Th & _).
  destruct (input HelpOffer st1) as [[answer|ex|] st2]; simpl in Hh2, Th.
  2:{ exists (evs1 ++ [Asked HelpOffer]), hs1.
      destruct ex; inversion E; subst; clear E;
        (split; [traces|]); (split; [auto using run_offer|]);
        (split; [traces|]); (split; [assumption|]);
        intros Et; inversion Et; congruence. }
  2:{ inversion E; subst; clear E.
      exists (evs1 ++ [Asked HelpOffer]), hs1.
      (split; [traces|]); (split; [auto using run_offer|]);
        (split; [traces|]); (split; [assumption|]). discriminate. }
  destruct (one_of _ _).
  2:{ inversion E; subst; clear E.
      exists (evs1 ++ [Asked HelpOffer]), hs1.
      (split; [traces|]); (split; [auto using run_offer|]);
        (split; [traces|]); (split; [assumption|]).
      intros Et; inversion Et; congruence. }
  unfold get_command_suggestion, suggest, get_user_choice in E.
  unfold bind at 1 in E.
  set (q := get_error_fix_prompt _ _ _ _) in E.
  set (st3 := log (Suggested q) st2) in E.
  assert (T3 : trace st3 = trace st2 ++ [Suggested q]) by reflexivity.
  assert (H3 : history st3 = history st2) by reflexivity.
  unfold bind at 1 in E.
  destruct (choice_loop_asks (S (List.length (stdin st3))) st3)
    as (H4 & k & T4).
  destruct (choice_loop (S (List.length (stdin st3))) st3) as [res4 st4].
  cbn [snd] in H4, T4. clearbody st3.
  assert (Q : forall b0 st0,
             (b0 = Ok (Result.success r) \/ (exists x, b0 = Raise x)
              \/ b0 = OutOfFuel) ->
             st0 = st4 ->
             exists evs hs,
               trace st0 = trace st ++ evs /\ run command safe evs /\
               history st0 = history st ++ hs /\
               Forall (fun r => logged_ok r = true) hs /\
               (b0 = Ok true ->
                exists hs' r, hs = hs' ++ [r] /\ Result.success r = true)).
  { intros b0 st0 Hb ->.
    exists (evs1 ++ Asked HelpOffer :: Suggested q :: repeat (Asked Choice) k),
      hs1.
    (split; [traces|]); (split; [auto using run_query|]);
      (split; [traces|]); (split; [assumption|]).
    intros Et. destruct Hb as [->|[[x ->]| ->]];
      [inversion Et; congruence | discriminate | discriminate]. }
  destruct res4 as [c|ex|].
  2:{ destruct ex; inversion E; subst; clear E; apply Q; eauto. }
  2:{ inversion E; subst; clear E; apply Q; eauto. }
  destruct c; try (inversion E; subst; clear E; apply Q; eauto; fail).
  destruct (execute_command e fuel
              (s_command (provider e (count is_query (trace st2)) q))
              false st4) as [res5 st5] eqn:E5.
  destruct (IH _ _ _ _ _ E5) as (evs5 & hs5 & T5 & R5 & H5 & F5 & C5).
  assert (Hrun : run command safe
            (evs1 ++ Asked HelpOffer :: Suggested q
                  :: repeat (Asked Choice) k ++ evs5))
    by (eapply run_repair; eassumption).
  exists (evs1 ++ Asked HelpOffer :: Suggested q
               :: repeat (Asked Choice) k ++ evs5), (hs1 ++ hs5).
  assert (Tt : trace st5
               = trace st ++ evs1 ++ Asked HelpOffer :: Suggested q
                   :: repeat (Asked Choice) k ++ evs5) by traces.
  assert (Ht : history st5 = history st ++ hs1 ++ hs5).
  { rewrite H5, H4, H3, Hh2, H1, <- app_assoc. reflexivity. }
  assert (Ft : Forall (fun r => logged_ok r = true) (hs1 ++ hs5))
    by (apply Forall_app; auto).
  destruct res5 as [b|ex|].
  - inversion E; subst; clear E. repeat split; auto.
    intros Et. destruct (C5 Et) as (hs' & r' & -> & Sr').
    exists (hs1 ++ hs'), r'. rewrite <- app_assoc. auto.
  - destruct ex; inversion E; subst; clear E; repeat split; auto;
      intros Et; inversion Et; congruence.
  - inversion E; subst; clear E. repeat split; auto. discriminate.
Qed.

End Shapes.

(** ** What the traces of [execute_command] satisfy *)

Section Discipline.

Import World Assistant Executor Trace.
Local Open Scope list_scope.

(** The event before the one that follows [pre]. *)
Lemma chain_at (ok : option event -> event -> bool) (pre : list event) :
  forall (p : option event) (ev : event) (post : list event),
    chain ok p (pre ++ ev :: post) = true ->
    pre = [] /\ ok p ev = true \/
    exists pre' x, pre = pre' ++ [x] /\ ok (Some x) ev = true.
Proof.
  induction pre as [|y pre IH]; intros p ev post H.
  - left. simpl in H. apply andb_true_iff in H. tauto.
  - right. simpl in H. apply andb_true_iff in H. destruct H as [_ H].
    destruct (IH _ _ _ H) as [[-> O]|(pre' & x & -> & O)].
    + exists [], y. auto.
    + exists (y :: pre'), x. auto.
Qed.

Section Generic.

Variable ok : option event -> event -> bool.
Variable auto_ok : bool.

Hypothesis ask_ok : forall p q, ok p (Asked q) = true.
Hypothesis mono : forall p ev, ok None ev = true -> ok p ev = true.
Hypothesis query_ok : forall q, ok (Some (Asked HelpOffer)) (Suggested q) = true.
Hypothesis spawn_confirmed : forall c risks,
  fst (validate_command c) = true ->
  ok (Some (Asked (Confirm c risks))) (Spawned c) = true.
Hypothesis spawn_plain : forall c,
  fst (validate_command c) = true -> fst (is_dangerous c) = false ->
  ok None (Spawned c) = true.
Hypothesis spawn_auto : auto_ok = true -> forall c,
  fst (validate_command c) = true -> ok None (Spawned c) = true.

Lemma chain_any (evs : list event) (p : option event) :
  chain ok None evs = true -> chain ok p evs = true.
Proof.
  destruct evs as [|ev evs]; [reflexivity|]. simpl. intros H.
  apply andb_true_iff in H. destruct H as [H1 H2].
  rewrite (mono p ev H1). exact H2.
Qed.

Lemma chain_app (a b : list event) : forall p : option event,
  chain ok p a = true -> (forall p', chain ok p' b = true) ->
  chain ok p (a ++ b) = true.
Proof.
  induction a as [|x a IH]; intros p Ha Hb; simpl; [apply Hb|].
  simpl in Ha. apply andb_true_iff in Ha. destruct Ha as [H1 H2].
  rewrite H1. simpl. apply IH; assumption.
Qed.

Lemma chain_asks (k : nat) (b : list event) :
  (forall p', chain ok p' b = true) ->
  forall p, chain ok p (repeat (Asked Choice) k ++ b) = true.
Proof.
  intros Hb. induction k as [|k IH]; intros p; simpl; [apply Hb|].
  rewrite ask_ok. simpl. apply IH.
Qed.

Lemma attempt_chain (c : string) (auto : bool) (a : list event) :
  attempt c auto a -> (auto = true -> auto_ok = true) ->
  chain ok None a = true.
Proof.
  intros A Hauto. destruct A as [|V [D|D]|risks|risks V]; simpl.
  - reflexivity.
  - rewrite spawn_plain by assumption. reflexivity.
  - rewrite (spawn_auto (Hauto D)) by assumption. reflexivity.
  - rewrite ask_ok. reflexivity.
  - rewrite ask_ok, spawn_confirmed by assumption. reflexivity.
Qed.

Lemma run_chain (c : string) (safe : bool) (evs : list event) :
  run c safe evs -> (safe = true -> auto_ok = true) ->
  chain ok None evs = true.
Proof.
  induction 1 as [c safe a A|c safe a A|c safe a q n A
                 |c safe a q n c' evs A R IH]; intros Hauto.
  - eapply attempt_chain; eassumption.
  - apply chain_app; [eapply attempt_chain; eassumption|].
    intros p'. simpl. rewrite ask_ok. reflexivity.
  - apply chain_app; [eapply attempt_chain; eassumption|].
    intros p'. simpl. rewrite ask_ok, query_ok. simpl.
    rewrite <- (app_nil_r (repeat _ n)). apply chain_asks. reflexivity.
  - apply chain_app; [eapply attempt_chain; eassumption|].
    intros p'. simpl. rewrite ask_ok, query_ok. simpl.
    apply chain_asks. intros p''. apply chain_any. apply IH. discriminate.
Qed.

End Generic.

Lemma run_gate (c : string) (evs : list event) :
  run c false evs -> chain gate_ok None evs = true.
Proof.
  intros R. refine (run_chain gate_ok false _ _ _ _ _ _ c false evs R _).
  - reflexivity.
  - intros p [q|c0|q] H; try reflexivity.
    unfold gate_ok, confirms in H |- *.
    rewrite orb_false_r in H. rewrite H. reflexivity.
  - reflexivity.
  - intros c0 risks _. unfold gate_ok, confirms.
    rewrite String.eqb_refl. apply orb_true_r.
  - intros c0 _ D. unfold gate_ok. rewrite D. reflexivity.
  - discriminate.
  - discriminate.
Qed.

Lemma run_consent (c : string) (safe : bool) (evs : list event) :
  run c safe evs -> chain consent_ok None evs = true.
Proof.
  intros R. refine (run_chain consent_ok true _ _ _ _ _ _ c safe evs R _);
    try reflexivity.
  intros p [q|c0|q] H; try reflexivity. discriminate H.
Qed.

Lemma run_valid (c : string) (safe : bool) (evs : list event) :
  run c safe evs -> chain valid_ok None evs = true.
Proof.
  intros R. refine (run_chain valid_ok true _ _ _ _ _ _ c safe evs R _);
    try reflexivity; unfold valid_ok; auto.
Qed.

End Discipline.

Section RepairLoop.

Import World Assistant Executor Trace.
Local Open Scope list_scope.

Variable e : env.

Lemma gate_before (pre post : list event) (c : string) :
  chain gate_ok None (pre ++ Spawned c :: post) = true ->
  fst (is_dangerous c) = true ->
  exists pre' risks, pre = pre' ++ [Asked (Confirm c risks)].
Proof.
  intros H D. destruct (chain_at _ _ _ _ _ H) as [[_ O]|(pre' & x & -> & O)];
    unfold gate_ok, confirms in O; rewrite D in O; simpl in O;
    [discriminate O|].
  destruct x as [[c0 risks| |]| |]; try discriminate O.
  apply String.eqb_eq in O. subst c0. exists pre', risks. reflexivity.
Qed.

Lemma consent_before (pre post : list event) (q : string) :
  chain consent_ok None (pre ++ Suggested q :: post) = true ->
  exists pre', pre = pre' ++ [Asked HelpOffer].
Proof.
  intros H. destruct (chain_at _ _ _ _ _ H) as [[_ O]|(pre' & x & -> & O)];
    simpl in O; [discriminate O|].
  destruct x as [[c0 risks| |]| |]; try discriminate O.
  exists pre'. reflexivity.
Qed.

Lemma valid_spawned (evs : list event) : forall (p : option event) (c : string),
  chain valid_ok p evs = true -> In (Spawned c) evs ->
  fst (validate_command c) = true.
Proof.
  induction evs as [|ev evs IH]; intros p c H I; [destruct I|].
  simpl in H. apply andb_true_iff in H. destruct H as [H1 H2].
  destruct I as [->|I]; [exact H1 | eapply IH; eassumption].
Qed.

(** With [safe=False], every process [execute_command] spawns for a
    dangerous command, for the command itself or for a fix the provider
    proposed, comes right after the confirmation prompt for that
    command. *)
Theorem execute_command_confirms_dangerous (command : string) (st : state) :
  exists evs,
    trace (snd (run_execute_command e command false st)) = trace st ++ evs /\
    forall pre c post,
      evs = pre ++ Spawned c :: post ->
      fst (is_dangerous c) = true ->
      exists pre' risks, pre = pre' ++ [Asked (Confirm c risks)].
Proof.
  unfold run_execute_command.
  destruct (execute_command e _ command false st) as [res st'] eqn:E.
  destruct (execute_command_detail e _ _ _ _ _ _ E) as (evs & hs & T & R & _).
  exists evs. split; [exact T|]. intros pre c post -> D.
  eapply gate_before; [apply (run_gate _ _ R) | exact D].
Qed.

(** Every query [execute_command] sends to the provider comes right
    after the offer of help: the error text of a command leaves the
    machine only when the user has just been asked. *)
Theorem execute_command_asks_before_query
    (command : string) (safe : bool) (st : state) :
  exists evs,
    trace (snd (run_execute_command e command safe st)) = trace st ++ evs /\
    forall pre q post,
      evs = pre ++ Suggested q :: post ->
      exists pre', pre = pre' ++ [Asked HelpOffer].
Proof.
  unfold run_execute_command.
  destruct (execute_command e _ command safe st) as [res st'] eqn:E.
  destruct (execute_command_detail e _ _ _ _ _ _ E) as (evs & hs & T & R & _).
  exists evs. split; [exact T|]. intros pre q post ->.
  eapply consent_before. apply (run_consent _ _ _ R).
Qed.

(** Every process [execute_command] spawns, whatever the flag and the
    answers, is for a command that [validate_command] accepts. *)
Theorem execute_command_spawns_valid
    (command : string) (safe : bool) (st : state) :
  exists evs,
    trace (snd (run_execute_command e command safe st)) = trace st ++ evs /\
    forall c, In (Spawned c) evs -> fst (validate_command c) = true.
Proof.
  unfold run_execute_command.
  destruct (execute_command e _ command safe st) as [res st'] eqn:E.
  destruct (execute_command_detail e _ _ _ _ _ _ E) as (evs & hs & T & R & _).
  exists evs. split; [exact T|]. intros c I.
  eapply valid_spawned; [apply (run_valid _ _ _ R) | exact I].
Qed.

(** [execute_command] only adds to the log, and what it adds are
    outcomes of validated commands that ran as processes, with
    [success] true exactly for the exit code 0. *)
Theorem execute_command_extends_log
    (command : string) (safe : bool) (st : state) :
  exists hs,
    history (snd (run_execute_command e command safe st)) = history st ++ hs /\
    forall r, In r hs ->
      Result.success r = Z.eqb (Result.returncode r) 0 /\
      fst (validate_command (Result.command r)) = true /\
      Result.error r = None /\ Result.dry_run r = Some false.
Proof.
  unfold run_execute_command.
  destruct (execute_command e _ command safe st) as [res st'] eqn:E.
  destruct (execute_command_detail e _ _ _ _ _ _ E)
    as (evs & hs & _ & _ & H & F & _).
  exists hs. split; [exact H|]. intros r I.
  rewrite Forall_forall in F. specialize (F r I). unfold logged_ok in F.
  apply andb_true_iff in F. destruct F as [F F3].
  apply andb_true_iff in F. destruct F as [F1 F2].
  apply Bool.eqb_prop in F1.
  destruct (Result.error r); [discriminate F3|].
  destruct (Result.dry_run r) as [[|]|]; try discriminate F3. auto.
Qed.

(** [execute_command] answers [True] only when the outcome logged last
    is a success: a fix that worked, or the command itself. *)
Theorem execute_command_true_means_success
    (command : string) (safe : bool) (st : state) :
  fst (run_execute_command e command safe st) = Ok true ->
  exists before r,
    history (snd (run_execute_command e command safe st)) = before ++ [r] /\
    Result.success r = true.
Proof.
  unfold run_execute_command.
  destruct (execute_command e _ command safe st) as [res st'] eqn:E.
  destruct (execute_command_detail e _ _ _ _ _ _ E)
    as (evs & hs & _ & _ & H & _ & C).
  simpl. intros ->. destruct (C eq_refl) as (hs' & r & -> & S).
  exists (history st ++ hs'), r. rewrite H, app_assoc. auto.
Qed.

End RepairLoop.

Section RepairLoopWitness.

Import World Assistant Executor.
Local Open Scope list_scope.

Lemma execute_command_true_means_success_witness :
  fst (run_execute_command Scenario.calm "ls" false (Scenario.fresh [])) = Ok true /\
  exists before r,
    history (snd (run_execute_command Scenario.calm "ls" false
                    (Scenario.fresh []))) = before ++ [r] /\
    Result.success r = true.
Proof.
  split; [vm_compute; reflexivity |].
  apply (execute_command_true_means_success Scenario.calm "ls" false
           (Scenario.fresh [])).
  vm_compute; reflexivity.
Defined.

End RepairLoopWitness.

(** ** The last error *)

Section LastError.

Import World Executor Trace.
Local Open Scope list_scope.

Lemma find_rev_newest {A} (f : A -> bool) (l : list A) :
  match find f (rev l) with
  | Some x =>
      exists before after,
        l = before ++ x :: after /\ f x = true /\
        Forall (fun y => f y = false) after
  | None => Forall (fun y => f y = false) l
  end.
Proof.
  induction l as [|y l IH] using rev_ind; [constructor|].
  rewrite rev_app_distr. simpl. destruct (f y) eqn:Fy.
  - exists l, []. auto.
  - destruct (find f (rev l)) as [x|].
    + destruct IH as (b & a & -> & Fx & Fa).
      exists b, (a ++ [y]). rewrite <- app_assoc. repeat split; auto.
      apply Forall_app. auto.
    + apply Forall_app. auto.
Qed.

(** [get_last_error] returns the newest logged outcome that failed:
    every outcome logged after it succeeded; it returns [None] exactly
    when every logged outcome succeeded. *)
Theorem get_last_error_newest (st : state) :
  match get_last_error st with
  | Some r =>
      exists before after,
        history st = before ++ r :: after /\
        Result.success r = false /\
        Forall (fun r' => Result.success r' = true) after
  | None => Forall (fun r' => Result.success r' = true) (history st)
  end.
Proof.
  unfold get_last_error.
  pose proof (find_rev_newest (fun cmd => negb (Result.success cmd))
                (history st)) as H.
  destruct (find _ (rev (history st))) as [r|].
  - destruct H as (b & a & E & Fr & Fa). exists b, a.
    apply negb_true_iff in Fr. repeat split; auto.
    eapply Forall_impl; [|exact Fa]. intros x Hx.
    now apply negb_false_iff in Hx.
  - eapply Forall_impl; [|exact H]. intros x Hx.
    now apply negb_false_iff in Hx.
Qed.

Lemma find_rev_snoc {A} (f : A -> bool) (l : list A) (y : A) :
  find f (rev (l ++ [y])) = if f y then Some y else find f (rev l).
Proof. rewrite rev_app_distr. reflexivity. Qed.

(** After [execute], [get_last_error] gives the outcome of the call when
    the process ran and ended with an exit code other than 0; after a
    rejected command, a time-out, a spawn failure or a success it gives
    what it gave before. *)
Theorem get_last_error_after_execute (e : env) (command : string) (st : state) :
  exists r st',
    execute e command false st = (Ok r, st') /\
    get_last_error st'
    = if fst (validate_command command)
         && exit_failure
              (subprocess_run e (count is_spawn (trace st)) command)
      then Some r else get_last_error st.
Proof.
  destruct (fst (validate_command command)) eqn:V.
  - rewrite execute_spawned by assumption. cbv zeta.
    eexists _, _. split; [reflexivity|]. simpl andb.
    unfold logged, get_last_error, process_outcome.
    destruct (subprocess_run e (count is_spawn (trace st)) command)
      as [rc out err| |]; simpl completed; cbv iota; try reflexivity.
    cbn [history log exit_failure]. rewrite find_rev_snoc. simpl.
    destruct (Z.eqb rc 0); reflexivity.
  - rewrite execute_rejected by assumption.
    eexists _, _. split; reflexivity.
Qed.

End LastError.

(** ** More on cleaning and on the patterns *)

Section CleanShape.

Import Text.

(** What [clean_command] returns has no whitespace at either end, has
    its words separated by single spaces, and has none of the four typos
    left. *)
Theorem clean_command_normal (command : string) :
  let cleaned := Executor.clean_command command in
  PyStr.strip cleaned = cleaned /\
  PyStr.join " " (PyStr.split cleaned) = cleaned /\
  forall typo correct,
    In (typo, correct) Executor.replacements ->
    PyStr.contains typo cleaned = false.
Proof.
  pose proof replacements_well_formed as W. unfold well_formed in W.
  apply andb_true_iff in W. destruct W as [W A].
  destruct (correct_all_spec Executor.replacements [] _ W A
              (tidy_join_split (PyStr.strip command))) as [T B];
    [intros p []|].
  change (correct_all Executor.replacements
            (PyStr.join " " (PyStr.split (PyStr.strip command))))
    with (Executor.clean_command command) in T, B.
  cbv zeta. split; [apply tidy_strip; assumption|].
  split; [apply tidy_split; assumption|].
  intros typo correct I. apply B. left.
  change typo with (fst (typo, correct)). apply in_map. assumption.
Qed.

(** [clean_command] leaves a command as it is exactly when the command
    is already normal: nothing to strip, single spaces, no typo. *)
Theorem clean_command_fixed_point (command : string) :
  Executor.clean_command command = command <->
  PyStr.strip command = command /\
  PyStr.join " " (PyStr.split command) = command /\
  forall typo, In typo (map fst Executor.replacements) ->
               PyStr.contains typo command = false.
Proof.
  pose proof replacements_well_formed as W. unfold well_formed in W.
  apply andb_true_iff in W. destruct W as [W A]. split.
  - intros E.
    destruct (correct_all_spec Executor.replacements [] _ W A
                (tidy_join_split (PyStr.strip command))) as [T B];
      [intros p []|].
    change (correct_all Executor.replacements
              (PyStr.join " " (PyStr.split (PyStr.strip command))))
      with (Executor.clean_command command) in T, B.
    rewrite E in T, B.
    split; [apply tidy_strip; assumption|].
    split; [apply tidy_split; assumption|]. intros typo I. apply B. auto.
  - intros (S & J & N).
    change (Executor.clean_command command)
      with (correct_all Executor.replacements
              (PyStr.join " " (PyStr.split (PyStr.strip command)))).
    rewrite S, J. apply correct_all_absent; assumption.
Qed.

End CleanShape.

Section Patterns.

Import Executor.
Local Open Scope list_scope.

Lemma match_prefix_append (i : bool) (s t : string) : forall r,
  Regex.match_prefix i r s = true ->
  Regex.match_prefix i r (s ++ t)%string = true.
Proof.
  induction s as [|x s IH]; intros r H.
  - simpl in H. rewrite orb_false_r in H. simpl append.
    destruct t; simpl; rewrite H; reflexivity.
  - simpl in H |- *. apply orb_true_iff in H. apply orb_true_iff.
    destruct H as [H|H]; [left; assumption | right; apply IH; assumption].
Qed.

Lemma search_append (i : bool) (r : Regex.regex) (s t : string) :
  Regex.search i r s = true -> Regex.search i r (s ++ t)%string = true.
Proof.
  induction s as [|x s IH]; intros H.
  - simpl in H. rewrite orb_false_r in H. simpl append.
    pose proof (match_prefix_append i EmptyString t r H) as M.
    simpl append in M. destruct t; simpl in *; rewrite M; reflexivity.
  - cbn [Regex.search] in H. simpl append. cbn [Regex.search].
    apply orb_true_iff in H. apply orb_true_iff. destruct H as [H|H].
    + left. apply (match_prefix_append i (String x s) t r H).
    + right. apply IH. assumption.
Qed.

Lemma search_prepend (i : bool) (r : Regex.regex) (a s : string) :
  Regex.search i r s = true -> Regex.search i r (a ++ s)%string = true.
Proof.
  intros H. induction a as [|x a IH]; [assumption|].
  simpl append. cbn [Regex.search]. rewrite IH. apply orb_true_r.
Qed.

Lemma pattern_risks_context (a c b risk : string) :
  In risk (pattern_risks c) -> In risk (pattern_risks (a ++ c ++ b)%string).
Proof.
  unfold pattern_risks. rewrite !in_map_iff.
  intros (p & E & I). exists p. split; [assumption|].
  apply filter_In in I. destruct I as [I S]. apply filter_In.
  split; [assumption|]. unfold re_search_ignorecase in *.
  destruct (Regex.compile p); [|discriminate].
  apply search_prepend, search_append. assumption.
Qed.

Lemma pattern_risks_kept (command risk : string) :
  In risk (pattern_risks command) -> In risk (snd (is_dangerous command)).
Proof.
  intros I. unfold is_dangerous. cbv zeta. cbn [snd].
  repeat match goal with
         | |- In _ (if ?b then _ else _) => destruct b
         | |- In _ (_ ++ _) => apply in_or_app; left
         end; assumption.
Qed.

(** A risk found by a pattern cannot be hidden by more text: when a
    pattern matches a command, it matches every text that contains the
    command, and that text is classified as dangerous with the same
    reason. *)
Theorem is_dangerous_in_context (a c b risk : string) :
  In risk (pattern_risks c) ->
  In risk (snd (is_dangerous (a ++ c ++ b)%string)) /\
  fst (is_dangerous (a ++ c ++ b)%string) = true.
Proof.
  intros I.
  assert (J : In risk (snd (is_dangerous (a ++ c ++ b)%string)))
    by (apply pattern_risks_kept, pattern_risks_context; assumption).
  split; [assumption|]. apply is_dangerous_iff_risks.
  intros N. rewrite N in J. destruct J.
Qed.

Lemma is_dangerous_in_context_witness :
  In "Matches dangerous pattern: rm\s+-rf\s+/"%string
     (pattern_risks "rm -rf /") /\
  In "Matches dangerous pattern: rm\s+-rf\s+/"%string
     (snd (is_dangerous ("cd /tmp; " ++ "rm -rf /" ++ " # tidy")%string)) /\
  fst (is_dangerous ("cd /tmp; " ++ "rm -rf /" ++ " # tidy")%string) = true.
Proof.
  split; [vm_compute; auto |].
  apply (is_dangerous_in_context "cd /tmp; " "rm -rf /" " # tidy").
  vm_compute; auto.
Defined.

End Patterns.

(** ** Requests and direct commands *)

Section Exceptions.

Import World Assistant Executor.
Local Open Scope list_scope.

Variable e : env.

Lemma bind_calm {A B} (m : M A) (k : A -> M B) (st : state) :
  fst (m st) <> Raise IndexError ->
  (forall a st', m st = (Ok a, st') -> fst (k a st') <> Raise IndexError) ->
  fst (bind m k st) <> Raise IndexError.
Proof.
  unfold bind. intros Hm Hk. destruct (m st) as [[a|ex|] st'] eqn:E.
  - apply Hk. reflexivity.
  - simpl in *. intros H. apply Hm. inversion H. reflexivity.
  - discriminate.
Qed.

Lemma except_calm {A} (m handler : M A) (st : state) :
  fst (m st) <> Raise IndexError ->
  (forall st', fst (handler st') <> Raise IndexError) ->
  fst (except_interrupt m handler st) <> Raise IndexError.
Proof.
  unfold except_interrupt. intros Hm Hh.
  destruct (m st) as [[a|[| |]|] st'] eqn:E; simpl in *;
    try discriminate; [apply Hh | exact Hm].
Qed.

Lemma input_calm (p : prompt) (st : state) :
  fst (input p st) <> Raise IndexError.
Proof.
  unfold input, log. cbn [stdin trace history].
  destruct (stdin st) as [|[text|] rest]; discriminate.
Qed.

Lemma read_line_spec (st : state) :
  fst (Session.read_line st) <> Raise IndexError /\
  fst (Session.read_line st) <> OutOfFuel /\
  trace (snd (Session.read_line st)) = trace st /\
  history (snd (Session.read_line st)) = history st /\
  List.length (stdin (snd (Session.read_line st))) <= List.length (stdin st).
Proof.
  unfold Session.read_line.
  destruct (stdin st) as [|[text|] rest] eqn:I; simpl;
    repeat split; try discriminate; try rewrite I; simpl; lia.
Qed.

Lemma choice_loop_calm (n : nat) : forall st : state,
  fst (choice_loop n st) <> Raise IndexError.
Proof.
  induction n as [|n IH]; intros st; [discriminate|].
  cbn [choice_loop]. apply bind_calm; [apply input_calm|].
  intros answer st' _. destruct (read_choice _); [discriminate | apply IH].
Qed.

Lemma execute_calm (command : string) (st : state) :
  fst (execute e command false st) <> Raise IndexError.
Proof.
  destruct (execute_detail e command st) as (r & st' & E & _).
  rewrite E. discriminate.
Qed.

Lemma execute_with_confirmation_calm
    (command : string) (auto : bool) (st : state) :
  fst (execute_with_confirmation e command auto st) <> Raise IndexError.
Proof.
  unfold execute_with_confirmation.
  destruct (is_dangerous command) as [dangerous risks].
  destruct (dangerous && negb auto); [|apply execute_calm].
  apply bind_calm; [apply input_calm|]. intros answer st' _.
  destruct (negb _); [discriminate | apply execute_calm].
Qed.

(** [execute_command] raises nothing but what [input] raises. *)
Lemma execute_command_calm (fuel : nat) :
  forall (command : string) (safe : bool) (st : state),
    fst (execute_command e fuel command safe st) <> Raise IndexError.
Proof.
  induction fuel as [|fuel IH]; intros command safe st; [discriminate|].
  cbn [execute_command].
  apply bind_calm; [apply execute_with_confirmation_calm|].
  intros r st1 _. destruct (failed_for_repair r); [|discriminate].
  apply except_calm; [|discriminate].
  apply bind_calm; [apply input_calm|]. intros answer st2 _.
  destruct (one_of _ _); [|discriminate].
  apply bind_calm; [discriminate|]. intros s st3 _.
  apply bind_calm; [apply choice_loop_calm|]. intros c st4 _.
  destruct c; try discriminate. apply IH.
Qed.

(** A top-level call of [execute_command] returns, or raises what
    [input] raised. *)
Lemma run_execute_command_proper
    (command : string) (safe : bool) (st : state) :
  fst (run_execute_command e command safe st) <> Raise IndexError /\
  fst (run_execute_command e command safe st) <> OutOfFuel.
Proof.
  unfold run_execute_command. split; [apply execute_command_calm|].
  destruct (execute_command e _ command safe st) as [res st'] eqn:E.
  destruct (execute_command_spec e _ _ _ _ _ _ E) as (F & _).
  apply F. lia.
Qed.

Lemma split_blank (s : string) :
  PyStr.split s = [] -> PyStr.lstrip s = EmptyString.
Proof.
  unfold PyStr.split. induction s as [|c s IH]; [reflexivity|].
  cbn [PyStr.split_words PyStr.lstrip].
  destruct (PyStr.split_words s) as [t ts].
  destruct (PyStr.isspace c); [exact IH|]. discriminate.
Qed.

(** A command the validator accepts has a word. *)
Lemma validate_command_words (command : string) :
  fst (validate_command command) = true -> PyStr.split command <> [].
Proof.
  unfold validate_command. intros V S.
  apply split_blank in S. unfold PyStr.strip in V. rewrite S in V.
  simpl in V. rewrite orb_true_r in V. discriminate V.
Qed.

Lemma execute_command_key (command : string) (st : state) r st' :
  execute e command false st = (Ok r, st') ->
  Result.command r = command.
Proof.
  destruct (fst (validate_command command)) eqn:V.
  - rewrite execute_spawned by assumption. cbv zeta.
    intros E. inversion E; subst.
    unfold process_outcome.
    destruct (subprocess_run e _ command); reflexivity.
  - rewrite execute_rejected by assumption.
    intros E. inversion E; subst. reflexivity.
Qed.

End Exceptions.

Section Direct.

Import World Assistant Executor Trace.
Local Open Scope list_scope.

Variable e : env.

Lemma run_command_detail (command : string) (safe : bool) (st : state) :
  fst (Session.run_command e command safe st) <> Raise IndexError /\
  fst (Session.run_command e command safe st) <> OutOfFuel /\
  exists evs,
    trace (snd (Session.run_command e command safe st)) = trace st ++ evs /\
    run command safe evs.
Proof.
  unfold Session.run_command, bind.
  destruct (run_execute_command_proper e command safe st) as [C F].
  unfold run_execute_command in *.
  destruct (execute_command e _ command safe st) as [res st'] eqn:E.
  destruct (execute_command_detail e _ _ _ _ _ _ E) as (evs & hs & T & R & _).
  simpl in C, F. destruct res as [b|ex|]; simpl.
  - repeat split; try discriminate. eauto.
  - repeat split; try discriminate; [|eauto].
    intros H. apply C. inversion H. reflexivity.
  - congruence.
Qed.

(** What [execute_direct_command] does: nothing for a command the
    validator rejects; for the others the process first, then what
    [execute_command] does after a failed attempt. *)
Lemma execute_direct_command_detail (command : string) (st : state) out st' :
  Session.execute_direct_command e command st = (out, st') ->
  out <> Raise IndexError /\ out <> OutOfFuel /\
  exists evs,
    trace st' = trace st ++ evs /\
    ((fst (validate_command command) = false /\ evs = []) \/
     (fst (validate_command command) = true /\
      exists tail, evs = Spawned command :: tail /\ run command false tail)).
Proof.
  unfold Session.execute_direct_command. unfold bind at 1.
  destruct (execute_detail e command st)
    as (r & st1 & E1 & _ & [(V & -> & S1 & S2)|(V & T1 & _)]);
    pose proof (execute_command_key e _ _ _ _ E1) as K; rewrite E1.
  { rewrite S2. intros E. inversion E; subst; clear E.
    repeat split; try discriminate. exists []. rewrite app_nil_r. auto. }
  assert (Done : forall (x : res unit) st0 tail,
             x <> Raise IndexError -> x <> OutOfFuel ->
             trace st0 = trace st1 ++ tail -> run command false tail ->
             x <> Raise IndexError /\ x <> OutOfFuel /\
             exists evs,
               trace st0 = trace st ++ evs /\
               ((fst (validate_command command) = false /\ evs = []) \/
                (fst (validate_command command) = true /\
                 exists tail, evs = Spawned command :: tail /\
                              run command false tail))).
  { intros x st0 tail X1 X2 T R. repeat split; try assumption.
    exists (Spawned command :: tail). split.
    - rewrite T, T1, <- app_assoc. reflexivity.
    - right. split; [assumption|]. eauto. }
  destruct (failed_for_repair r) eqn:FR.
  2:{ intros E. inversion E; subst; clear E.
      apply (Done _ _ []); try discriminate;
        [now rewrite app_nil_r | apply run_attempt, attempt_nothing]. }
  unfold bind at 1. unfold Session.lift.
  destruct (suggest_fix_returns r) as [hints Hh].
  { rewrite K. apply validate_command_words. assumption. }
  rewrite Hh. unfold bind at 1.
  destruct (input_spec HelpOffer st1) as (Th & Fh & _).
  destruct (input HelpOffer st1) as [[answer|ex|] st2] eqn:Ei;
    simpl in Th, Fh; [| |congruence].
  2:{ intros E. inversion E; subst; clear E.
      pose proof (input_calm HelpOffer st1) as C. rewrite Ei in C.
      apply (Done _ _ ([] ++ [Asked HelpOffer])); try assumption;
        try discriminate.
      - intros H. inversion H; subst. apply C. reflexivity.
      - apply run_offer, attempt_nothing. }
  destruct (one_of _ _).
  2:{ intros E. inversion E; subst; clear E.
      apply (Done _ _ ([] ++ [Asked HelpOffer])); try assumption;
        try discriminate.
      apply run_offer, attempt_nothing. }
  unfold get_command_suggestion, suggest, get_user_choice.
  unfold bind at 1.
  set (q := get_error_fix_prompt _ _ _ _).
  set (st3 := log (Suggested q) st2).
  assert (T3 : trace st3 = trace st2 ++ [Suggested q]) by reflexivity.
  unfold bind at 1.
  destruct (choice_loop_asks (S (List.length (stdin st3))) st3)
    as (_ & k & T4).
  destruct (choice_loop_spec (S (List.length (stdin st3))) st3) as (F4 & _).
  specialize (F4 (Nat.lt_succ_diag_r _)).
  pose proof (choice_loop_calm (S (List.length (stdin st3))) st3) as C4.
  destruct (choice_loop (S (List.length (stdin st3))) st3) as [res4 st4].
  cbn [fst snd] in T4, F4, C4. clearbody st3.
  assert (T4' : trace st4
                = trace st1 ++ [] ++ Asked HelpOffer :: Suggested q
                    :: repeat (Asked Choice) k).
  { rewrite T4, T3, Th, <- !app_assoc. reflexivity. }
  destruct res4 as [c|ex|]; [| |congruence].
  2:{ intros E. inversion E; subst; clear E.
      eapply Done; try eassumption; try discriminate.
      - intros H. inversion H; subst. apply C4. reflexivity.
      - apply run_query, attempt_nothing. }
  destruct c;
    try (intros E; inversion E; subst; clear E;
         eapply Done; try eassumption; try discriminate;
         apply run_query, attempt_nothing).
  set (fix_command := s_command _).
  fold (Session.run_command e fix_command false).
  destruct (run_command_detail fix_command false st4)
    as (C5 & F5 & evs5 & T5 & R5).
  intros E. rewrite E in C5, F5, T5. simpl in C5, F5, T5.
  apply (Done _ _ ([] ++ Asked HelpOffer :: Suggested q
                       :: repeat (Asked Choice) k ++ evs5));
    try assumption.
  - rewrite T5, T4'. rewrite <- !app_assoc. reflexivity.
  - eapply run_repair; [apply attempt_nothing | eassumption].
Qed.

End Direct.

Section Requests.

Import World Assistant Executor Trace.
Local Open Scope list_scope.

Variable e : env.

(** [handle_alternatives] reads at most one line, leaves the trace and
    the log alone, and returns nothing but an alternative of the list. *)
Lemma handle_alternatives_spec (alternatives : list string) (st : state) :
  fst (Session.handle_alternatives alternatives st) <> Raise IndexError /\
  fst (Session.handle_alternatives alternatives st) <> OutOfFuel /\
  trace (snd (Session.handle_alternatives alternatives st)) = trace st /\
  history (snd (Session.handle_alternatives alternatives st)) = history st.
Proof.
  unfold Session.handle_alternatives.
  destruct alternatives as [|a l]; [repeat split; discriminate|].
  unfold bind. destruct (read_line_spec st) as (C & F & T & H & _).
  destruct (Session.read_line st) as [[choice|ex|] st1]; simpl in *.
  - destruct (String.eqb _ _); [repeat split; auto; discriminate|].
    destruct (Session.int_of_str choice) as [n|];
      [|repeat split; auto; discriminate].
    destruct (_ && _)%bool; repeat split; auto; discriminate.
  - repeat split; auto; try discriminate.
    intros X. apply C. inversion X. reflexivity.
  - congruence.
Qed.

(** What [process_request] does: for a text that starts with a slash,
    what [execute_direct_command] does with the rest; for another text,
    the query, the choices, and then at most one call of
    [execute_command], auto-confirmed only when the provider said so. *)
Lemma process_request_detail (user_input : string) (st : state) out st' :
  Session.process_request e user_input st = (out, st') ->
  out <> Raise IndexError /\ out <> OutOfFuel /\
  exists evs,
    trace st' = trace st ++ evs /\
    if PyStr.startswith "/" user_input then
      let d := PyStr.strip (PyStr.drop 1 user_input) in
      (fst (validate_command d) = false /\ evs = []) \/
      (fst (validate_command d) = true /\
       exists tail, evs = Spawned d :: tail /\ run d false tail)
    else
      exists k c safe tail,
        evs = Suggested user_input :: repeat (Asked Choice) k ++ tail /\
        run c safe tail /\
        (safe = true ->
         safe_to_auto_execute
           (provider e (count is_query (trace st)) user_input) = true).
Proof.
  unfold Session.process_request.
  destruct (PyStr.startswith "/" user_input).
  { cbv zeta. destruct (PyStr.strip (PyStr.drop 1 user_input)) as [|x d] eqn:D.
    - simpl. intros E. inversion E; subst; clear E.
      repeat split; try discriminate. exists []. rewrite app_nil_r. auto.
    - simpl negb. cbv iota. apply execute_direct_command_detail. }
  unfold get_command_suggestion, suggest, get_user_choice.
  unfold bind at 1.
  set (s := provider e (count is_query (trace st)) user_input).
  set (st1 := log (Suggested user_input) st).
  assert (T1 : trace st1 = trace st ++ [Suggested user_input]) by reflexivity.
  unfold bind at 1.
  destruct (choice_loop_asks (S (List.length (stdin st1))) st1)
    as (_ & k & T2).
  destruct (choice_loop_spec (S (List.length (stdin st1))) st1) as (F2 & _).
  specialize (F2 (Nat.lt_succ_diag_r _)).
  pose proof (choice_loop_calm (S (List.length (stdin st1))) st1) as C2.
  destruct (choice_loop (S (List.length (stdin st1))) st1) as [res2 st2].
  cbn [fst snd] in T2, F2, C2. clearbody st1.
  assert (Done : forall (x : res unit) st0 c safe tail,
             x <> Raise IndexError -> x <> OutOfFuel ->
             trace st0 = trace st2 ++ tail -> run c safe tail ->
             (safe = true -> safe_to_auto_execute s = true) ->
             x <> Raise IndexError /\ x <> OutOfFuel /\
             exists evs,
               trace st0 = trace st ++ evs /\
               exists k c safe tail,
                 evs = Suggested user_input
                         :: repeat (Asked Choice) k ++ tail /\
                 run c safe tail /\
                 (safe = true -> safe_to_auto_execute s = true)).
  { intros x st0 c safe tail X1 X2 T R Hs. repeat split; try assumption.
    exists (Suggested user_input :: repeat (Asked Choice) k ++ tail).
    split; [rewrite T, T2, T1, <- !app_assoc; reflexivity|].
    exists k, c, safe, tail. auto. }
  assert (Stop : forall (x : res unit),
             x <> Raise IndexError -> x <> OutOfFuel ->
             x <> Raise IndexError /\ x <> OutOfFuel /\
             exists evs,
               trace st2 = trace st ++ evs /\
               exists k c safe tail,
                 evs = Suggested user_input
                         :: repeat (Asked Choice) k ++ tail /\
                 run c safe tail /\
                 (safe = true -> safe_to_auto_execute s = true)).
  { intros x X1 X2. apply (Done x st2 EmptyString false []); auto.
    - now rewrite app_nil_r.
    - apply run_attempt, attempt_nothing.
    - discriminate. }
  destruct res2 as [c|ex|]; [| |congruence].
  2:{ intros E. inversion E; subst; clear E. apply Stop; [|discriminate].
      intros H. inversion H; subst. apply C2. reflexivity. }
  destruct c.
  - destruct (run_command_detail e (s_command s) (safe_to_auto_execute s) st2)
      as (C5 & F5 & evs5 & T5 & R5).
    intros E. rewrite E in C5, F5, T5. simpl in C5, F5, T5.
    eapply Done; eauto.
  - intros E. inversion E; subst; clear E. apply Stop; discriminate.
  - unfold bind at 1. destruct (read_line_spec st2) as (C3 & F3 & T3 & _).
    destruct (Session.read_line st2) as [[new_command|ex|] st3];
      simpl in C3, F3, T3; [| |congruence].
    + destruct (negb _).
      * destruct (run_command_detail e new_command false st3)
          as (C5 & F5 & evs5 & T5 & R5).
        intros E. rewrite E in C5, F5, T5. simpl in C5, F5, T5.
        rewrite T3 in T5. eapply Done; eauto. discriminate.
      * intros E. inversion E; subst; clear E. rewrite T3.
        apply Stop; discriminate.
    + intros E. inversion E; subst; clear E. rewrite T3.
      apply Stop; [|discriminate].
      intros H. inversion H; subst. apply C3. reflexivity.
  - unfold bind at 1.
    destruct (handle_alternatives_spec (s_alternatives s) st2)
      as (C3 & F3 & T3 & _).
    destruct (Session.handle_alternatives (s_alternatives s) st2)
      as [[[alt|]|ex|] st3]; simpl in C3, F3, T3; [| | |congruence].
    + destruct (negb _).
      * destruct (run_command_detail e alt false st3)
          as (C5 & F5 & evs5 & T5 & R5).
        intros E. rewrite E in C5, F5, T5. simpl in C5, F5, T5.
        rewrite T3 in T5. eapply Done; eauto. discriminate.
      * intros E. inversion E; subst; clear E. rewrite T3.
        apply Stop; discriminate.
    + intros E. inversion E; subst; clear E. rewrite T3.
      apply Stop; discriminate.
    + intros E. inversion E; subst; clear E. rewrite T3.
      apply Stop; [|discriminate].
      intros H. inversion H; subst. apply C3. reflexivity.
  - intros E. inversion E; subst; clear E. apply Stop; discriminate.
Qed.

End Requests.

Section RequestProperties.

Import World Assistant Executor Trace.
Local Open Scope list_scope.

Variable e : env.


Lemma valid_ok_mono (p : option event) (ev : event) :
  valid_ok None ev = true -> valid_ok p ev = true.
Proof. destruct ev; auto. Qed.

(** The query and the choices of a request, and then a run. *)
Lemma chain_request (ok : option event -> event -> bool)
    (input : string) (k : nat) (tail : list event) :
  (forall p q, ok p (Asked q) = true) ->
  (forall p ev, ok None ev = true -> ok p ev = true) ->
  ok None (Suggested input) = true ->
  chain ok None tail = true ->
  chain ok None (Suggested input :: repeat (Asked Choice) k ++ tail) = true.
Proof.
  intros Ha Hm Hq Ht. simpl. rewrite Hq. simpl.
  apply chain_asks; [assumption|]. intros p'. apply chain_any; assumption.
Qed.


(** A direct command (a request that starts with a slash) that
    [validate_command] accepts is spawned first: no confirmation prompt
    comes before it, dangerous or not. *)
Theorem process_request_direct_skips_gate (text : string) (st : state) :
  fst (validate_command (PyStr.strip text)) = true ->
  exists tail,
    trace (snd (Session.process_request e (String "/" text) st))
    = trace st ++ Spawned (PyStr.strip text) :: tail.
Proof.
  intros V.
  destruct (Session.process_request e (String "/" text) st)
    as [out st'] eqn:E.
  destruct (process_request_detail e _ _ _ _ E) as (_ & _ & evs & T & H).
  assert (P : PyStr.startswith "/" (String "/" text) = true).
  { unfold PyStr.startswith. apply prefix_cons. split; [reflexivity|].
    apply prefix_nil. }
  rewrite P in H.
  cbv iota zeta in H. change (PyStr.drop 1 (String "/" text)) with text in H.
  destruct H as [[V' _]|(_ & tail & -> & _)]; [congruence|].
  exists tail. exact T.
Qed.


(** Every process [process_request] spawns, on every path, is for a
    command that [validate_command] accepts. *)
Theorem process_request_spawns_valid (user_input : string) (st : state) :
  exists evs,
    trace (snd (Session.process_request e user_input st)) = trace st ++ evs /\
    forall c, In (Spawned c) evs -> fst (validate_command c) = true.
Proof.
  destruct (Session.process_request e user_input st) as [out st'] eqn:E.
  destruct (process_request_detail e _ _ _ _ E) as (_ & _ & evs & T & H).
  exists evs. split; [exact T|]. intros c I.
  apply (valid_spawned evs None); [|exact I].
  destruct (PyStr.startswith "/" user_input).
  - cbv zeta in H. destruct H as [[_ ->]|(V & tail & -> & R)]; [destruct I|].
    cbn [chain valid_ok]. rewrite V. cbn [andb].
    apply chain_any; [exact valid_ok_mono|]. eapply run_valid; eassumption.
  - destruct H as (k & c0 & safe & tail & -> & R & _).
    apply chain_request; auto using valid_ok_mono.
    eapply run_valid; eassumption.
Qed.

(** What [handle_alternatives] returns is the alternative whose number,
    counted from one, the user typed: never another command, and
    nothing for 0, a negative number or a number beyond the list. *)
Theorem handle_alternatives_picks
    (alternatives : list string) (st : state) (a : string) :
  fst (Session.handle_alternatives alternatives st) = Ok (Some a) ->
  exists line rest k,
    stdin st = Line line :: rest /\
    Session.int_of_str line = Some (Z.of_nat (S k)) /\
    nth_error alternatives k = Some a.
Proof.
  unfold Session.handle_alternatives.
  destruct alternatives as [|a0 l]; [discriminate|].
  unfold bind, Session.read_line.
  destruct (stdin st) as [|[line|] rest]; [discriminate| |discriminate].
  destruct (String.eqb _ _); [discriminate|].
  destruct (Session.int_of_str line) as [n|] eqn:I; [|discriminate].
  destruct ((0 <=? n - 1)%Z && _)%bool eqn:B; [|discriminate].
  simpl. intros H. injection H as N.
  apply andb_true_iff in B. destruct B as [B1 _]. apply Z.leb_le in B1.
  exists line, rest, (Z.to_nat (n - 1)). split; [reflexivity|].
  split; [rewrite I; f_equal; lia | exact N].
Qed.

End RequestProperties.

Section RequestWitnesses.

Import World Assistant Executor.
Local Open Scope list_scope.

Lemma process_request_direct_skips_gate_witness :
  fst (validate_command (PyStr.strip "rm -rf /")) = true /\
  exists tail,
    trace (snd (Session.process_request Scenario.calm "/rm -rf /"
                  (Scenario.fresh [])))
    = trace (Scenario.fresh []) ++ Spawned (PyStr.strip "rm -rf /") :: tail.
Proof.
  split; [vm_compute; reflexivity |].
  apply (process_request_direct_skips_gate Scenario.calm "rm -rf /"
           (Scenario.fresh [])).
  vm_compute; reflexivity.
Defined.


Lemma handle_alternatives_picks_witness :
  fst (Session.handle_alternatives ["ls -l"; "ls -a"]%string
         (Scenario.fresh [" 2 "]%string)) = Ok (Some "ls -a"%string) /\
  exists line rest k,
    stdin (Scenario.fresh [" 2 "]%string) = Line line :: rest /\
    Session.int_of_str line = Some (Z.of_nat (S k)) /\
    nth_error ["ls -l"; "ls -a"]%string k = Some "ls -a"%string.
Proof.
  split; [vm_compute; reflexivity |].
  apply (handle_alternatives_picks ["ls -l"; "ls -a"]%string
           (Scenario.fresh [" 2 "]%string) "ls -a").
  vm_compute; reflexivity.
Defined.

End RequestWitnesses.

(** ** The conversation history *)

Section History.

Import Conversation.
Local Open Scope list_scope.
Local Open Scope Z_scope.

Lemma slice_last {A} (m : Z) (l : list A) :
  1 <= m ->
  slice_from (- m) l = skipn (List.length l - Z.to_nat m) l.
Proof.
  intros M. unfold slice_from.
  destruct (- m <? 0) eqn:N; [|apply Z.ltb_ge in N; lia].
  f_equal. lia.
Qed.

(** With a limit of at least one, [add_to_history] leaves at most
    [max_entries] messages, the new one last. *)
Theorem add_to_history_bounded
    (max_entries : Z) (h : list message) (role content : string) :
  1 <= max_entries ->
  Z.of_nat (List.length (add_to_history max_entries h role content))
  <= max_entries /\
  exists before,
    add_to_history max_entries h role content = before ++ [(role, content)].
Proof.
  intros M. unfold add_to_history.
  destruct (max_entries <? _) eqn:L.
  - apply Z.ltb_lt in L. rewrite slice_last by assumption.
    rewrite length_app in *. simpl List.length in *.
    rewrite skipn_app.
    replace (List.length h + 1 - Z.to_nat max_entries - List.length h)%nat
      with 0%nat by lia.
    simpl skipn. split.
    + rewrite length_app, length_skipn. simpl. lia.
    + eexists. reflexivity.
  - apply Z.ltb_ge in L. split; [assumption|]. eexists. reflexivity.
Qed.

(** With the limit 0, [add_to_history] never drops a message: the slice
    [[-0:]] is the whole list. *)
Theorem add_to_history_zero_keeps_all
    (h : list message) (role content : string) :
  add_to_history 0 h role content = h ++ [(role, content)].
Proof.
  unfold add_to_history, slice_from. destruct (0 <? _); [|reflexivity].
  change (- 0 <? 0) with false. cbv iota.
  rewrite Z.min_l by lia. reflexivity.
Qed.

(** From the empty history and with a limit of at least one, the history
    after any series of additions is its last [max_entries] messages. *)
Theorem add_to_history_window (max_entries : Z) (msgs : list message) :
  1 <= max_entries ->
  fold_left (fun h msg => add_to_history max_entries h (fst msg) (snd msg))
            msgs []
  = slice_from (- max_entries) msgs.
Proof.
  intros M. induction msgs as [|[role content] msgs IH] using rev_ind.
  - rewrite slice_last by assumption. reflexivity.
  - rewrite fold_left_app. cbn [fold_left fst snd].
    match goal with
    | |- add_to_history _ ?x _ _ = _ =>
        replace x with (slice_from (- max_entries) msgs)
          by (symmetry; exact IH)
    end.
    rewrite !slice_last by assumption. unfold add_to_history.
    rewrite !length_app, length_skipn. simpl List.length.
    destruct (max_entries <? _) eqn:L.
    + apply Z.ltb_lt in L. rewrite slice_last by assumption.
      rewrite !length_app, length_skipn. simpl List.length.
      rewrite !skipn_app, length_skipn, skipn_skipn.
      replace (List.length msgs - (List.length msgs - Z.to_nat max_entries)
               + 1 - Z.to_nat max_entries
               - (List.length msgs
                  - (List.length msgs - Z.to_nat max_entries)))%nat
        with 0%nat by lia.
      replace (List.length msgs + 1 - Z.to_nat max_entries
               - List.length msgs)%nat with 0%nat by lia.
      f_equal. f_equal. lia.
    + apply Z.ltb_ge in L. rewrite skipn_app.
      replace (List.length msgs + 1 - Z.to_nat max_entries)%nat
        with 0%nat by lia.
      replace (List.length msgs - Z.to_nat max_entries)%nat
        with 0%nat by lia.
      reflexivity.
Qed.

Lemma add_to_history_bounded_witness :
  1 <= 2 /\
  Z.of_nat (List.length (add_to_history 2 [("user", "a"); ("assistant", "b")]%string
                           "user" "c")) <= 2 /\
  exists before,
    add_to_history 2 [("user", "a"); ("assistant", "b")]%string "user" "c"
    = before ++ [("user", "c")]%string.
Proof.
  split; [lia |].
  apply (add_to_history_bounded 2 [("user", "a"); ("assistant", "b")]%string
           "user" "c").
  lia.
Defined.

Lemma add_to_history_window_witness :
  1 <= 2 /\
  fold_left (fun h msg => add_to_history 2 h (fst msg) (snd msg))
            [("user", "a"); ("assistant", "b"); ("user", "c")]%string []
  = slice_from (- 2) [("user", "a"); ("assistant", "b"); ("user", "c")]%string.
Proof.
  split; [lia |].
  apply (add_to_history_window 2
           [("user", "a"); ("assistant", "b"); ("user", "c")]%string).
  lia.
Defined.

End History.

(** ** The choice, the loop of the session, rejected commands *)

Section Choices.

Import World Assistant Executor Trace.
Local Open Scope list_scope.

Lemma choice_loop_skips (junk : list string) :
  forall (n : nat) (answer : string) (c : choice) (rest : list keyboard)
         (st : state),
    Forall (fun l => read_choice (PyStr.strip (PyStr.lower l)) = None) junk ->
    read_choice (PyStr.strip (PyStr.lower answer)) = Some c ->
    stdin st = map Line junk ++ Line answer :: rest ->
    List.length junk < n ->
    choice_loop n st
    = (Ok c, {| history := history st; stdin := rest;
                trace := trace st
                         ++ repeat (Asked Choice) (S (List.length junk)) |}).
Proof.
  induction junk as [|l junk IH]; intros n answer c rest st J A I N;
    (destruct n as [|n]; [simpl in N; lia|]);
    cbn [choice_loop]; unfold bind, input, log; cbn [stdin trace history];
    rewrite I; cbn [map app].
  - rewrite A. reflexivity.
  - inversion J as [|? ? Jl Jr]; subst. rewrite Jl.
    rewrite (IH n answer c rest); try assumption;
      [|reflexivity | simpl in N; lia].
    cbn [history stdin trace]. f_equal. f_equal.
    rewrite <- app_assoc. reflexivity.
Qed.

(** [get_user_choice] asks again after every answer it does not know,
    and returns the choice of the first answer it knows, leaving the
    lines after it unread. *)
Theorem get_user_choice_skips_unknown
    (s : suggestion) (junk : list string) (answer : string) (c : choice)
    (rest : list keyboard) (st : state) :
  Forall (fun l => read_choice (PyStr.strip (PyStr.lower l)) = None) junk ->
  read_choice (PyStr.strip (PyStr.lower answer)) = Some c ->
  stdin st = map Line junk ++ Line answer :: rest ->
  get_user_choice s st
  = (Ok c, {| history := history st; stdin := rest;
              trace := trace st
                       ++ repeat (Asked Choice) (S (List.length junk)) |}).
Proof.
  intros J A I. unfold get_user_choice.
  apply (choice_loop_skips junk _ answer c rest st J A I).
  rewrite I, length_app, length_map. simpl. lia.
Qed.

(** A command [validate_command] rejects is never spawned by
    [execute_with_confirmation], whatever the flag and the answer. *)
Theorem execute_with_confirmation_rejected_not_spawned
    (e : env) (command : string) (auto : bool) (st : state) :
  fst (validate_command command) = false ->
  exists evs,
    trace (snd (execute_with_confirmation e command auto st))
    = trace st ++ evs /\
    forall c, ~ In (Spawned c) evs.
Proof.
  intros V.
  destruct (execute_with_confirmation e command auto st) as [out st'] eqn:E.
  destruct (execute_with_confirmation_detail e _ _ _ _ _ E)
    as (evs & hs & T & A & _).
  exists evs. split; [exact T|]. intros c I.
  destruct A as [|V' _|risks|risks V']; simpl in I;
    try congruence; intuition discriminate.
Qed.

End Choices.

Section SessionLoop.

Import World Assistant.
Local Open Scope list_scope.

(** At the end of the input the interactive session does not end: with
    nothing but blank lines left to read, [input] raises [EOFError], the
    loop reports it and asks again, for ever. *)
Theorem run_interactive_session_spins_at_eof
    (e : env) (fuel : nat) (lines : list string) :
  forall st : state,
    Forall (fun l => PyStr.strip l = EmptyString) lines ->
    stdin st = map Line lines ->
    fst (Main.run_interactive_session e fuel st) = OutOfFuel.
Proof.
  revert lines. induction fuel as [|fuel IH]; intros lines st B I;
    [reflexivity|].
  cbn [Main.run_interactive_session]. unfold Main.turn, bind at 1.
  unfold Session.read_line. rewrite I.
  destruct lines as [|l lines]; cbn [map].
  - apply (IH []); [constructor | assumption].
  - inversion B as [|? ? Bl Br]; subst. rewrite Bl.
    cbn. apply (IH lines); [assumption | reflexivity].
Qed.

End SessionLoop.

Section ChoiceWitnesses.

Import World Assistant Executor.
Local Open Scope list_scope.

Lemma get_user_choice_skips_unknown_witness :
  Forall (fun l => read_choice (PyStr.strip (PyStr.lower l)) = None)
         ["maybe"; "ok"]%string /\
  read_choice (PyStr.strip (PyStr.lower " YES ")) = Some Assistant.execute /\
  stdin (Scenario.fresh ["maybe"; "ok"; " YES "; "n"]%string)
  = map Line ["maybe"; "ok"]%string ++ Line " YES " :: [Line "n"] /\
  get_user_choice Scenario.no_suggestion
    (Scenario.fresh ["maybe"; "ok"; " YES "; "n"]%string)
  = (Ok Assistant.execute,
     {| history := history (Scenario.fresh ["maybe"; "ok"; " YES "; "n"]%string);
        stdin := [Line "n"];
        trace := trace (Scenario.fresh ["maybe"; "ok"; " YES "; "n"]%string)
                 ++ repeat (Asked Choice)
                      (S (List.length ["maybe"; "ok"]%string)) |}).
Proof.
  split; [repeat constructor |].
  split; [reflexivity | split; [reflexivity |]].
  apply (get_user_choice_skips_unknown Scenario.no_suggestion
           ["maybe"; "ok"]%string " YES " Assistant.execute [Line "n"]
           (Scenario.fresh ["maybe"; "ok"; " YES "; "n"]%string));
    [repeat constructor | reflexivity | reflexivity].
Defined.

Lemma execute_with_confirmation_rejected_not_spawned_witness :
  fst (validate_command "echo `id`") = false /\
  exists evs,
    trace (snd (execute_with_confirmation Scenario.calm "echo `id`" true
                  (Scenario.fresh [])))
    = trace (Scenario.fresh []) ++ evs /\
    forall c, ~ In (Spawned c) evs.
Proof.
  split; [reflexivity |].
  apply (execute_with_confirmation_rejected_not_spawned Scenario.calm
           "echo `id`" true (Scenario.fresh [])).
  reflexivity.
Defined.

Lemma run_interactive_session_spins_at_eof_witness :
  Forall (fun l => PyStr.strip l = EmptyString) ["  "]%string /\
  stdin (Scenario.fresh ["  "]%string) = map Line ["  "]%string /\
  fst (Main.run_interactive_session Scenario.calm 100
         (Scenario.fresh ["  "]%string)) = OutOfFuel.
Proof.
  split; [repeat constructor |]. split; [reflexivity |].
  apply (run_interactive_session_spins_at_eof Scenario.calm 100
           ["  "]%string (Scenario.fresh ["  "]%string));
    [repeat constructor | reflexivity].
Defined.

End ChoiceWitnesses.

Section MoreWitnesses.

Import World Executor.
Local Open Scope list_scope.


Lemma validate_command_clean_witness :
  PyStr.strip "ls -la $HOME" <> EmptyString /\
  PyStr.contains "`" "ls -la $HOME" = false /\
  PyStr.contains "$(" "ls -la $HOME" = false /\
  PyStr.contains "${" "ls -la $HOME" = false /\
  validate_command "ls -la $HOME" = (true, "Valid"%string).
Proof.
  split; [vm_compute; discriminate |].
  split; [reflexivity | split; [reflexivity | split; [reflexivity |]]].
  apply (validate_command_clean "ls -la $HOME");
    [vm_compute; discriminate | reflexivity | reflexivity | reflexivity].
Defined.

(** [suggest_fix] returns a list of hints for every outcome whose
    command has a word. *)
Theorem suggest_fix_total_on_words (r : Result.t) :
  PyStr.split (Result.command r) <> [] ->
  exists hints, suggest_fix r = Ok hints.
Proof. intros S. exact (suggest_fix_returns r S). Qed.

Lemma suggest_fix_total_on_words_witness :
  PyStr.split (Result.command
                 (outcome "git pull" false [] false false EmptyString
                    "fatal: not a git repository" 128%Z)) <> [] /\
  exists hints,
    suggest_fix (outcome "git pull" false [] false false EmptyString
                   "fatal: not a git repository" 128%Z) = Ok hints.
Proof.
  split; [vm_compute; discriminate |].
  apply (suggest_fix_total_on_words
           (outcome "git pull" false [] false false EmptyString
              "fatal: not a git repository" 128%Z)).
  vm_compute; discriminate.
Defined.

End MoreWitnesses.

(** ** The configuration *)

Section Configuration.

Import Config.
Local Open Scope list_scope.

Lemma lookup_assign (k : string) (v : value) (d : dict) :
  lookup k (assign k v d) = Some v.
Proof.
  induction d as [|[k' v'] d IH]; simpl.
  - now rewrite String.eqb_refl.
  - destruct (String.eqb k' k) eqn:E; simpl; rewrite E; auto.
Qed.

Lemma lookup_assign_other (k k' : string) (v : value) (d : dict) :
  k <> k' -> lookup k' (assign k v d) = lookup k' d.
Proof.
  intros N. induction d as [|[k0 v0] d IH]; simpl.
  - destruct (String.eqb_spec k k'); [contradiction | reflexivity].
  - destruct (String.eqb_spec k0 k) as [->|]; simpl.
    + destruct (String.eqb_spec k k'); [contradiction | reflexivity].
    + destruct (String.eqb k0 k'); auto.
Qed.

Lemma write_same (h : heap) : forall (a : nat) (d d0 : dict),
  nth_error h a = Some d0 -> nth_error (write h a d) a = Some d.
Proof.
  induction h as [|x h IH]; intros [|a] d d0 H; simpl in *;
    try discriminate; eauto.
Qed.

Lemma write_other (h : heap) : forall (a b : nat) (d : dict),
  a <> b -> nth_error (write h a d) b = nth_error h b.
Proof.
  induction h as [|x h IH]; intros [|a] [|b] d N; simpl; auto;
    try congruence.
Qed.

Lemma write_length (h : heap) : forall (a : nat) (d : dict),
  List.length (write h a d) = List.length h.
Proof. induction h as [|x h IH]; intros [|a] d; simpl; auto. Qed.

Lemma alloc_old (h : heap) (d d0 : dict) (a : nat) :
  nth_error h a = Some d0 -> nth_error (h ++ [d]) a = Some d0.
Proof.
  intros H. rewrite nth_error_app1; [assumption|].
  apply nth_error_Some. congruence.
Qed.

Lemma alloc_new (h : heap) (d : dict) :
  nth_error (h ++ [d]) (List.length h) = Some d.
Proof. rewrite nth_error_app2, Nat.sub_diag by lia. reflexivity. Qed.

Lemma bound (h : heap) (a : nat) (d : dict) :
  nth_error h a = Some d -> a < List.length h.
Proof. intros H. apply nth_error_Some. congruence. Qed.

Lemma set_keys_last (k : string) (v config : value) (h : heap) :
  set_keys [k] v config h =
  match config with
  | VDict a =>
      match nth_error h a with
      | Some d => (Done, write h a (assign k v d))
      | None => (TypeError, h)
      end
  | _ => (TypeError, h)
  end.
Proof. reflexivity. Qed.

Lemma set_keys_step (k k' : string) (ks : list string) (v config : value)
      (h : heap) :
  set_keys (k :: k' :: ks) v config h =
  match config with
  | VDict a =>
      match nth_error h a with
      | Some d =>
          match lookup k d with
          | Some child => set_keys (k' :: ks) v child h
          | None =>
              set_keys (k' :: ks) v (VDict (List.length h))
                       (write (h ++ [[]]) a
                              (assign k (VDict (List.length h)) d))
          end
      | None => (TypeError, h)
      end
  | _ => (TypeError, h)
  end.
Proof. reflexivity. Qed.

(** In a dictionary that was just made, [set] goes through. *)
Lemma set_keys_fresh (keys : list string) (v : value) :
  forall (b : nat) (h : heap),
    keys <> [] -> nth_error h b = Some [] ->
    fst (set_keys keys v (VDict b) h) = Done.
Proof.
  induction keys as [|k [|k' ks] IH]; intros b h N H.
  - contradiction.
  - rewrite set_keys_last, H. reflexivity.
  - rewrite set_keys_step, H. cbn [lookup].
    apply IH; [discriminate|].
    rewrite write_other by (apply bound in H; lia).
    apply alloc_new.
Qed.

Lemma set_keys_atomic (keys : list string) (v : value) :
  forall (config : value) (h : heap) (st : status) (h' : heap),
    set_keys keys v config h = (st, h') -> st <> Done -> h' = h.
Proof.
  induction keys as [|k [|k' ks] IH]; intros config h st h' E N.
  - simpl in E. congruence.
  - rewrite set_keys_last in E.
    destruct config; try congruence.
    destruct (nth_error h address); congruence.
  - rewrite set_keys_step in E.
    destruct config; try congruence.
    destruct (nth_error h address) as [d|] eqn:HA; [|congruence].
    destruct (lookup k d) as [child|].
    + eapply IH; eassumption.
    + exfalso. apply N.
      assert (F := set_keys_fresh (k' :: ks) v (List.length h)
                     (write (h ++ [[]]) address
                            (assign k (VDict (List.length h)) d))).
      rewrite E in F. apply F; [discriminate|].
      rewrite write_other by (apply bound in HA; lia).
      apply alloc_new.
Qed.

(** [set] touches no entry whose key is not on its path. *)
Lemma set_keys_keeps (keys : list string) (v : value) (k0 : string) :
  forall (config : value) (h : heap) (st : status) (h' : heap)
         (a : nat) (d : dict),
    set_keys keys v config h = (st, h') ->
    ~ In k0 keys ->
    nth_error h a = Some d ->
    exists d', nth_error h' a = Some d' /\ lookup k0 d' = lookup k0 d.
Proof.
  induction keys as [|k [|k' ks] IH]; intros config h st h' a d E N H.
  - simpl in E. injection E as _ <-. eauto.
  - rewrite set_keys_last in E.
    assert (K : k <> k0) by (intros ->; apply N; left; reflexivity).
    destruct config;
      try (injection E as _ <-; exists d; split; [assumption|reflexivity]).
    destruct (nth_error h address) as [d0|] eqn:HA;
      [|injection E as _ <-; eauto].
    injection E as _ <-.
    destruct (Nat.eq_dec address a) as [->|D].
    + rewrite H in HA. injection HA as <-.
      exists (assign k v d). split.
      * eapply write_same; eassumption.
      * apply lookup_assign_other; assumption.
    + exists d. split; [|reflexivity].
      rewrite write_other by assumption. assumption.
  - rewrite set_keys_step in E.
    assert (K : k <> k0) by (intros ->; apply N; left; reflexivity).
    assert (N' : ~ In k0 (k' :: ks)) by (intros I; apply N; right; exact I).
    destruct config;
      try (injection E as _ <-; exists d; split; [assumption|reflexivity]).
    destruct (nth_error h address) as [d0|] eqn:HA;
      [|injection E as _ <-; eauto].
    destruct (lookup k d0) as [child|].
    + eapply IH; eassumption.
    + destruct (Nat.eq_dec address a) as [->|D].
      * rewrite H in HA. injection HA as <-.
        destruct (IH _ _ _ _ a (assign k (VDict (List.length h)) d) E N')
          as (d' & H1 & H2).
        { eapply write_same. eapply alloc_old. eassumption. }
        exists d'. split; [assumption|].
        rewrite H2. apply lookup_assign_other; assumption.
      * eapply (IH _ _ _ _ a d E N').
        rewrite write_other by assumption.
        apply alloc_old. assumption.
Qed.

Lemma set_keys_get_keys (keys : list string) (v default : value) :
  forall (config : value) (h h' : heap),
    NoDup keys ->
    set_keys keys v config h = (Done, h') ->
    get_keys h' keys config default = v.
Proof.
  induction keys as [|k [|k' ks] IH]; intros config h h' U E.
  - simpl in E. congruence.
  - rewrite set_keys_last in E.
    destruct config; try congruence.
    destruct (nth_error h address) as [d|] eqn:HA; [|congruence].
    injection E as <-. cbn [get_keys].
    rewrite (write_same _ _ _ _ HA), lookup_assign. reflexivity.
  - rewrite set_keys_step in E.
    inversion U as [|x l NI U' EQ]; subst.
    destruct config; try congruence.
    destruct (nth_error h address) as [d|] eqn:HA; [|congruence].
    destruct (lookup k d) as [child|] eqn:L.
    + destruct (set_keys_keeps _ _ k _ _ _ _ address d E NI HA)
        as (d' & H1 & H2).
      change (get_keys h' (k :: k' :: ks) (VDict address) default)
        with (match nth_error h' address with
              | Some d =>
                  match lookup k d with
                  | Some v' => get_keys h' (k' :: ks) v' default
                  | None => default
                  end
              | None => default
              end).
      rewrite H1, H2, L. eapply IH; eassumption.
    + assert (HW : nth_error
                     (write (h ++ [[]]) address
                            (assign k (VDict (List.length h)) d)) address
                   = Some (assign k (VDict (List.length h)) d)).
      { eapply write_same. eapply alloc_old. eassumption. }
      destruct (set_keys_keeps _ _ k _ _ _ _ address _ E NI HW)
        as (d' & H1 & H2).
      change (get_keys h' (k :: k' :: ks) (VDict address) default)
        with (match nth_error h' address with
              | Some d =>
                  match lookup k d with
                  | Some v' => get_keys h' (k' :: ks) v' default
                  | None => default
                  end
              | None => default
              end).
      rewrite H1, H2, lookup_assign. eapply IH; eassumption.
Qed.

(** A value stored by [set] is what [get] returns for the same key,
    whatever the default, when no component of the dotted key is
    repeated (dictionaries may be shared or even contain themselves). *)
Theorem set_then_get (h h' : heap) (root : nat) (key : string)
        (v default : value) :
  NoDup (split_on "." key) ->
  set h root key v = (Done, h') ->
  get h' root key default = v.
Proof.
  intros U E. unfold get. unfold set in E.
  eapply set_keys_get_keys; eassumption.
Qed.

Lemma set_then_get_witness :
  get (snd (set (snd (new DEFAULTS)) (fst (new DEFAULTS))
                "history.max_entries" (VInt 5)))
      (fst (new DEFAULTS)) "history.max_entries" (VInt 20) = VInt 5.
Proof.
  apply (set_then_get (snd (new DEFAULTS)) _ (fst (new DEFAULTS))
                      "history.max_entries" (VInt 5) (VInt 20)).
  - vm_compute. repeat constructor; simpl; intuition discriminate.
  - reflexivity.
Defined.

(** When [set] raises, no dictionary has been changed: the entries it
    makes on the way are made only where the rest of the path cannot
    fail. *)
Theorem set_raises_unchanged (h h' : heap) (root : nat) (key : string)
        (v : value) (st : status) :
  set h root key v = (st, h') ->
  st <> Done ->
  h' = h.
Proof. intros E N. unfold set in E. eapply set_keys_atomic; eassumption. Qed.

Lemma set_raises_unchanged_witness :
  snd (set DEFAULTS 0 "provider.name" (VStr "ollama")) = DEFAULTS.
Proof.
  apply (set_raises_unchanged DEFAULTS _ 0 "provider.name" (VStr "ollama")
                              TypeError).
  - reflexivity.
  - discriminate.
Defined.

(** A dotted [set] on a configuration made by [copy] changes the
    dictionary it was copied from: the nested dictionaries are shared,
    so the original (the class attribute [DEFAULTS], for [Config()])
    gives the new value from then on. *)
Theorem set_reaches_original (h : heap) (origin a : nat) (d nested : dict)
        (key k1 k2 : string) (v default : value) :
  nth_error h origin = Some d ->
  lookup k1 d = Some (VDict a) ->
  nth_error h a = Some nested ->
  a <> origin ->
  split_on "." key = [k1; k2] ->
  exists h',
    set (snd (copy h origin)) (fst (copy h origin)) key v = (Done, h') /\
    get h' origin key default = v.
Proof.
  intros HO L HA D S.
  unfold set, get, copy. rewrite HO, S. cbn [alloc fst snd].
  rewrite set_keys_step, alloc_new, L, set_keys_last.
  rewrite (alloc_old _ _ _ _ HA).
  eexists. split; [reflexivity|].
  cbn [get_keys].
  rewrite write_other by assumption.
  rewrite (alloc_old _ _ _ _ HO), L.
  rewrite (write_same _ _ _ nested) by (apply alloc_old; assumption).
  rewrite lookup_assign. reflexivity.
Qed.

Lemma set_reaches_original_witness :
  exists h',
    set (snd (new DEFAULTS)) (fst (new DEFAULTS)) "openai.model"
        (VStr "gpt-3.5-turbo") = (Done, h') /\
    get h' 0 "openai.model" VNone = VStr "gpt-3.5-turbo".
Proof.
  eapply (set_reaches_original DEFAULTS 0 1 _ _ "openai.model"
                               "openai" "model" (VStr "gpt-3.5-turbo") VNone);
    try reflexivity.
  discriminate.
Defined.

(** [save] hides the key in the running configuration too: the copy it
    writes to the file shares the dictionary of [openai], so after
    [save] the configuration itself gives [***] for the key. *)
Theorem save_hides_live_api_key (h : heap) (root a : nat) (d openai : dict)
        (default : value) :
  nth_error h root = Some d ->
  lookup "openai" d = Some (VDict a) ->
  nth_error h a = Some openai ->
  has "api_key" openai = true ->
  get (save h root) root "openai.api_key" default = VStr "***".
Proof.
  intros HR L HA K.
  unfold save, copy. rewrite HR. cbn [alloc].
  rewrite alloc_new, L, (alloc_old _ _ _ _ HA), K.
  unfold get.
  change (split_on "." "openai.api_key") with ["openai"; "api_key"].
  cbn [get_keys].
  destruct (Nat.eq_dec a root) as [->|D].
  - rewrite HR in HA. injection HA as <-.
    rewrite (write_same _ _ _ d) by (apply alloc_old; assumption).
    rewrite lookup_assign_other by discriminate.
    rewrite L.
    rewrite (write_same _ _ _ d) by (apply alloc_old; assumption).
    rewrite lookup_assign. reflexivity.
  - rewrite write_other by assumption.
    rewrite (alloc_old _ _ _ _ HR), L.
    rewrite (write_same _ _ _ openai) by (apply alloc_old; assumption).
    rewrite lookup_assign. reflexivity.
Qed.

Lemma save_hides_live_api_key_witness :
  get (save (snd (set DEFAULTS 0 "openai.api_key" (VStr "sk-live"))) 0) 0
      "openai.api_key" VNone = VStr "***".
Proof.
  eapply (save_hides_live_api_key
            (snd (set DEFAULTS 0 "openai.api_key" (VStr "sk-live"))) 0 1 _ _
            VNone);
    reflexivity.
Defined.

End Configuration.

(** ** The text of a suggestion *)

Section Responses.

Import Prompts.
Local Open Scope string_scope.

Lemma body_close (m rest : string) :
  no_brace m = true -> body (m ++ String "}" rest) = Some (m ++ "}").
Proof.
  induction m as [|c m IH]; intros H; [reflexivity|].
  cbn [no_brace] in H. apply andb_true_iff in H. destruct H as [H M].
  apply andb_true_iff in H. destruct H as [C O].
  apply negb_true_iff in C, O.
  cbn [append body]. rewrite C, O, (IH M). reflexivity.
Qed.

Lemma body_open (b t : string) :
  no_close b = true -> body (b ++ String "{" t) = None.
Proof.
  induction b as [|c b IH]; intros H; [reflexivity|].
  cbn [no_close] in H. apply andb_true_iff in H. destruct H as [C B].
  apply negb_true_iff in C.
  cbn [append body]. rewrite C, (IH B).
  destruct (is_open c); reflexivity.
Qed.

Lemma search_object_before (b t : string) :
  no_close b = true ->
  search_object (b ++ String "{" t) = search_object (String "{" t).
Proof.
  induction b as [|c b IH]; intros H; [reflexivity|].
  cbn [no_close] in H. apply andb_true_iff in H. destruct H as [C B].
  cbn [append]. cbn [search_object]. fold search_object.
  rewrite (body_open b t B).
  rewrite (IH B). destruct (is_open c); reflexivity.
Qed.

Lemma after_letters_search (s : string) :
  search_object (after_letters s) = search_object s.
Proof.
  induction s as [|c s IH]; [reflexivity|].
  cbn [after_letters]. destruct (is_lower c) eqn:L; [|reflexivity].
  rewrite IH. cbn [search_object].
  replace (is_open c) with false; [reflexivity|].
  symmetry. unfold is_open. apply Ascii.eqb_neq. intros ->. discriminate L.
Qed.

Lemma open_fence_search (s : string) :
  search_object (open_fence s) = search_object s.
Proof.
  unfold open_fence. destruct (prefix fence s) eqn:P; [|reflexivity].
  destruct (after_letters (PyStr.drop 3 s)) as [|c rest] eqn:A;
    [reflexivity|].
  destruct (Ascii.eqb_spec c Regex.newline) as [->|]; [|reflexivity].
  apply prefix_drop in P. rewrite P at 1.
  change (String.length fence) with 3%nat.
  change (search_object (fence ++ PyStr.drop 3 s))
    with (search_object (PyStr.drop 3 s)).
  rewrite <- (after_letters_search (PyStr.drop 3 s)), A. reflexivity.
Qed.

Lemma close_fence_body (s : string) : body (close_fence s) = body s.
Proof.
  induction s as [|c s IH]; [reflexivity|].
  cbn [close_fence].
  destruct (String.eqb_spec (String c s) (nl ++ fence)) as [E|_];
    [rewrite E; reflexivity|].
  destruct (String.eqb_spec (String c s) (nl ++ fence ++ nl)) as [E|_];
    [rewrite E; reflexivity|].
  cbn [body]. rewrite IH. reflexivity.
Qed.

Lemma close_fence_search (s : string) :
  search_object (close_fence s) = search_object s.
Proof.
  induction s as [|c s IH]; [reflexivity|].
  cbn [close_fence].
  destruct (String.eqb_spec (String c s) (nl ++ fence)) as [E|_];
    [rewrite E; reflexivity|].
  destruct (String.eqb_spec (String c s) (nl ++ fence ++ nl)) as [E|_];
    [rewrite E; reflexivity|].
  cbn [search_object]. rewrite close_fence_body, IH. reflexivity.
Qed.

(** [validate_json_response] gives the parser the first pair of braces
    that has no brace inside, and nothing else of the response: of a
    reply whose object holds braces (a nested object, or a command such
    as [awk '{print $1}']) only that inner text is parsed, with or
    without a fence around the reply. *)
Theorem validate_json_response_innermost (response before m rest : string) :
  no_close before = true ->
  no_brace m = true ->
  PyStr.strip response = before ++ "{" ++ m ++ "}" ++ rest ->
  response_text response = "{" ++ m ++ "}".
Proof.
  intros B M S. unfold response_text. rewrite S.
  assert (F : search_object (before ++ "{" ++ m ++ "}" ++ rest)
              = Some ("{" ++ m ++ "}")).
  { change (before ++ "{" ++ m ++ "}" ++ rest)
      with (before ++ String "{" (m ++ String "}" rest)).
    rewrite (search_object_before _ _ B).
    cbn [search_object]. change (is_open "{") with true. cbv iota.
    rewrite (body_close m rest M). reflexivity. }
  destruct (PyStr.startswith fence _).
  - rewrite close_fence_search, open_fence_search, F. reflexivity.
  - rewrite F. reflexivity.
Qed.

Lemma validate_json_response_innermost_witness :
  response_text " {command: awk '{print $1}' notes, safe_to_auto_execute: true} "
  = "{print $1}".
Proof.
  apply (validate_json_response_innermost
           " {command: awk '{print $1}' notes, safe_to_auto_execute: true} "
           "{command: awk '" "print $1"
           "' notes, safe_to_auto_execute: true}");
    reflexivity.
Defined.

End Responses.
